(** * Device configuration sample: SLIP framing, reassembly, settings
      verification, signing and the provisioning flow.

    A shallow embedding of the Python sources
    - [slip_utils/slip_dispatcher.py]   ([Slip], [SlipSerialReader],
                                         [ProtobufDelimitedBuffer]),
    - [settings_utils/settings_handler.py]    ([SettingsHandler]),
    - [settings_utils/settings_authorizer.py] ([DTSettingsAuthorizer]),
    - [fwinfo_utils/fwinfo_reader.py]         ([FWInfoReader]),
    - [main.py]                               ([upload_settings], [main]).

    Conventions.
    - A Python [bytes]/[bytearray] is a [list Z]; every byte the code
      inspects is compared with, or masked by, a constant, so no statement
      below needs the range [0..255] as a hypothesis.
    - A Python [str] is a [string].
    - A Python [dict] is an association list in insertion order.
    - A Python exception is a [None] in an [option] result, a [Raises]
      among the endings of a handler call, or the outcome [Escaped] of
      [main].
    - A [while] loop is a function with fuel that answers [None] when the
      fuel runs out; each such loop comes with a lemma that the fuel the
      caller passes is enough. *)

From Stdlib Require Import String Ascii.
From Stdlib Require Import ZArith List Bool Lia Arith.
Import ListNotations.

Local Open Scope Z_scope.

Definition byte := Z.
Definition bytes := list byte.

(** ** Python [bytes] primitives used by the sources *)

Module PyBytes.

(** [old] is a prefix of [s]. *)
Fixpoint starts_with (old s : bytes) : bool :=
  match old, s with
  | [], _ => true
  | _ :: _, [] => false
  | o :: old', c :: s' => (o =? c) && starts_with old' s'
  end.

(** The scan of [bytes.replace] for a non-empty [old]: left to right,
    occurrences do not overlap.  [skip] counts the bytes of the
    occurrence just replaced that are still to be passed over. *)
Fixpoint replace_from (old new : bytes) (skip : nat) (s : bytes) : bytes :=
  match s with
  | [] => []
  | c :: s' =>
      match skip with
      | S k => replace_from old new k s'
      | O =>
          if starts_with old s
          then new ++ replace_from old new (Nat.pred (List.length old)) s'
          else c :: replace_from old new 0 s'
      end
  end.

(** [s.replace(old, new)].  An empty [old] matches before every byte and
    at the end. *)
Definition replace (old new s : bytes) : bytes :=
  match old with
  | [] => new ++ flat_map (fun c => c :: new) s
  | _ :: _ => replace_from old new 0 s
  end.

Definition mem (c : byte) (cs : bytes) : bool := existsb (Z.eqb c) cs.

Fixpoint lstrip (cs s : bytes) : bytes :=
  match s with
  | [] => []
  | c :: s' => if mem c cs then lstrip cs s' else s
  end.

Definition rstrip (cs s : bytes) : bytes := rev (lstrip cs (rev s)).

(** [s.strip(cs)]: drop the leading and the trailing bytes that are in
    [cs]. *)
Definition strip (cs s : bytes) : bytes := rstrip cs (lstrip cs s).

(** [c in s] and [s.index(c)] for a single byte. *)
Definition contains (c : byte) (s : bytes) : bool := existsb (Z.eqb c) s.

Fixpoint index (c : byte) (s : bytes) : option nat :=
  match s with
  | [] => None
  | x :: s' => if x =? c then Some O else option_map S (index c s')
  end.

(** [s[:n]] and [s[n:]] for [0 <= n]. *)
Definition slice_to (n : nat) (s : bytes) : bytes := firstn n s.
Definition slice_from (n : nat) (s : bytes) : bytes := skipn n s.

End PyBytes.

(** ** [class Slip] *)

Module Slip.
Import PyBytes.

Definition END : byte := 0x0A.
Definition ESC : byte := 0xDB.
Definition ESC_END : byte := 0xDC.
Definition ESC_ESC : byte := 0xDD.

Definition END_b : bytes := [END].
Definition ESC_b : bytes := [ESC].
Definition ESC_END_b : bytes := [ESC_END].
Definition ESC_ESC_b : bytes := [ESC_ESC].

Definition encode (data : bytes) : bytes :=
  replace END_b (ESC_b ++ ESC_END_b)
    (replace ESC_b (ESC_b ++ ESC_ESC_b) data)
  ++ END_b.

Definition decode (data : bytes) : bytes :=
  strip END_b
    (replace (ESC_b ++ ESC_END_b) END_b
       (replace (ESC_b ++ ESC_ESC_b) ESC_b data)).

End Slip.

(** ** [class SlipSerialReader]

  Of the object's fields only [buffer] matters to framing; the handler
  map is looked at by the dispatch, after a packet has been decoded. *)

Module SlipSerialReader.
Import PyBytes.

Record t := mk { buffer : bytes }.

Definition init : t := mk [].

(** The [while Slip.END in self.buffer] loop of [data_received].  The
    result lists the raw packets for which a [process_packet] task is
    created, in creation order, and the buffer that is left. *)
Fixpoint extract_loop (fuel : nat) (buffer : bytes)
  : option (list bytes * bytes) :=
  match fuel with
  | O => None
  | S fuel' =>
      if contains Slip.END buffer then
        match index Slip.END buffer with
        | None => None
        | Some end_index =>
            let raw_packet := slice_to (end_index + 1) buffer in
            let buffer' := slice_from (end_index + 1) buffer in
            match extract_loop fuel' buffer' with
            | Some (tasks, rest) => Some (raw_packet :: tasks, rest)
            | None => None
            end
        end
      else Some ([], buffer)
  end.

Definition data_received (self : t) (data : bytes)
  : option (list bytes * t) :=
  let buffer := buffer self ++ data in
  match extract_loop (S (List.length buffer)) buffer with
  | Some (tasks, rest) => Some (tasks, mk rest)
  | None => None
  end.

(** [process_packet] up to the handler look-up: the decoded frame that is
    dispatched, or nothing for an empty one. *)
Definition process_packet (packet : bytes) : option (byte * bytes) :=
  match Slip.decode packet with
  | [] => None
  | address :: payload => Some (address, payload)
  end.

(** Feeding a list of chunks, one [data_received] call each. *)
Fixpoint feed_chunks (self : t) (chunks : list bytes)
  : option (list bytes * t) :=
  match chunks with
  | [] => Some ([], self)
  | data :: chunks' =>
      match data_received self data with
      | None => None
      | Some (tasks, self') =>
          match feed_chunks self' chunks' with
          | None => None
          | Some (tasks', self'') => Some (tasks ++ tasks', self'')
          end
      end
  end.

(** The decoded frames that the created tasks dispatch, in order. *)
Fixpoint dispatched (tasks : list bytes) : list (byte * bytes) :=
  match tasks with
  | [] => []
  | p :: tasks' =>
      match process_packet p with
      | Some f => f :: dispatched tasks'
      | None => dispatched tasks'
      end
  end.

End SlipSerialReader.

(** ** [class ProtobufDelimitedBuffer] *)

Module ProtobufDelimitedBuffer.
Import PyBytes.

Record t := mk { buffer : bytes }.

Definition init : t := mk [].

(** The [for i, byte in enumerate(buf)] loop of [_read_varint]; running
    off the end of [buf] is the [ValueError]. *)
Fixpoint read_varint_from (buf : bytes) (result shift : Z) (i : nat)
  : option (Z * nat) :=
  match buf with
  | [] => None
  | byte :: buf' =>
      let result := Z.lor result (Z.shiftl (Z.land byte 0x7F) shift) in
      if Z.land byte 0x80 =? 0 then Some (result, (i + 1)%nat)
      else read_varint_from buf' result (shift + 7) (i + 1)%nat
  end.

Definition _read_varint (buf : bytes) : option (Z * nat) :=
  read_varint_from buf 0 0 0%nat.

Definition _extract_next_message (buf : bytes) : option bytes * bytes :=
  match _read_varint buf with
  | None => (None, buf)
  | Some (size, size_len) =>
      if Z.of_nat (List.length buf) <? Z.of_nat size_len + size
      then (None, buf)
      else
        let msg_start := size_len in
        let msg_end := Z.to_nat (Z.of_nat size_len + size) in
        let msg := slice_from msg_start (slice_to msg_end buf) in
        (Some msg, slice_from msg_end buf)
  end.

(** The [while True] loop of [feed]: the messages handed to the consumer,
    in order, and the buffer that is left. *)
Fixpoint feed_loop (fuel : nat) (buffer : bytes)
  : option (list bytes * bytes) :=
  match fuel with
  | O => None
  | S fuel' =>
      match _extract_next_message buffer with
      | (None, _) => Some ([], buffer)
      | (Some msg, remaining) =>
          match feed_loop fuel' remaining with
          | Some (msgs, rest) => Some (msg :: msgs, rest)
          | None => None
          end
      end
  end.

Definition feed (self : t) (data : bytes) : option (list bytes * t) :=
  let buffer := buffer self ++ data in
  match feed_loop (S (List.length buffer)) buffer with
  | Some (msgs, rest) => Some (msgs, mk rest)
  | None => None
  end.

Fixpoint feed_chunks (self : t) (chunks : list bytes)
  : option (list bytes * t) :=
  match chunks with
  | [] => Some ([], self)
  | data :: chunks' =>
      match feed self data with
      | None => None
      | Some (msgs, self') =>
          match feed_chunks self' chunks' with
          | None => None
          | Some (msgs', self'') => Some (msgs ++ msgs', self'')
          end
      end
  end.

(** Modelled from the spec: the sender's variable-length-integer encoder,
    which the sources do not contain (only the reader is there).  7 value
    bits per byte, least significant group first, high bit set on every
    byte that is followed by another one. *)
Fixpoint encode_varint_fuel (fuel : nat) (n : Z) : bytes :=
  if n <? 0x80 then [n]
  else
    match fuel with
    | O => [Z.land n 0x7F]
    | S fuel' =>
        Z.lor (Z.land n 0x7F) 0x80 :: encode_varint_fuel fuel' (Z.shiftr n 7)
    end.

Definition encode_varint (n : Z) : bytes :=
  encode_varint_fuel (Z.to_nat (Z.log2 n)) n.

(** One length-prefixed message. *)
Definition delimited (payload : bytes) : bytes :=
  encode_varint (Z.of_nat (List.length payload)) ++ payload.

End ProtobufDelimitedBuffer.

(** ** Python values that [json.loads] returns and [json.dumps] accepts

  Numbers with a fraction or an exponent are left out. *)

#[local] Set Warnings "-register-all".

Inductive json : Type :=
| JNull
| JBool (b : bool)
| JInt (n : Z)
| JStr (s : string)
| JList (l : list json)
| JObj (m : list (string * json)).

Definition dict := list (string * json).

Module PyDict.

(** [d.get(key)], [None] when the key is absent. *)
Fixpoint get (key : string) (d : dict) : option json :=
  match d with
  | [] => None
  | (k, v) :: d' => if String.eqb k key then Some v else get key d'
  end.

(** [key in d]. *)
Definition contains (key : string) (d : dict) : bool :=
  match get key d with Some _ => true | None => false end.

(** [d[key] = value]: an existing key keeps its place, a new one goes
    last. *)
Fixpoint set (key : string) (value : json) (d : dict) : dict :=
  match d with
  | [] => [(key, value)]
  | (k, v) :: d' =>
      if String.eqb k key then (k, value) :: d'
      else (k, v) :: set key value d'
  end.

(** [list(d.keys())]. *)
Definition keys (d : dict) : list string := map fst d.

End PyDict.

Module PyValue.

(** [bool] is a subclass of [int]: [True == 1] and [False == 0]. *)
Definition as_int (v : json) : option Z :=
  match v with
  | JBool b => Some (if b then 1 else 0)
  | JInt n => Some n
  | _ => None
  end.

(** Python's [a == b] on these values. *)
Fixpoint eqb (a b : json) {struct a} : bool :=
  match a, b with
  | JNull, JNull => true
  | JBool x, (JBool _ | JInt _) =>
      match as_int b with
      | Some n => (if x then 1 else 0) =? n
      | None => false
      end
  | JInt x, (JBool _ | JInt _) =>
      match as_int b with Some n => x =? n | None => false end
  | JStr s, JStr s' => String.eqb s s'
  | JList l, JList l' =>
      (fix all2 (l l' : list json) {struct l} : bool :=
         match l, l' with
         | [], [] => true
         | x :: r, y :: r' => eqb x y && all2 r r'
         | _, _ => false
         end) l l'
  | JObj m, JObj m' =>
      (List.length m =? List.length m')%nat
      && (fix every (m : list (string * json)) {struct m} : bool :=
            match m with
            | [] => true
            | (k, v) :: r =>
                match PyDict.get k m' with
                | Some v' => eqb v v'
                | None => false
                end && every r
            end) m
  | _, _ => false
  end.

(** Python's truth value, as tested by [if v] and [not v]. *)
Definition truthy (v : json) : bool :=
  match v with
  | JNull => false
  | JBool b => b
  | JInt n => negb (n =? 0)
  | JStr s => negb (String.eqb s EmptyString)
  | JList l => match l with [] => false | _ => true end
  | JObj m => match m with [] => false | _ => true end
  end.

(** Truth value of something that is a [dict] or [None]. *)
Definition truthy_dict (r : option dict) : bool :=
  match r with
  | None => false
  | Some d => truthy (JObj d)
  end.

End PyValue.

(** ** [asyncio.Future], as far as the sources use it *)

Module Future.

Inductive t (A : Type) : Type :=
| Pending
| Finished (result : A)
| Cancelled.
Arguments Pending {A}.
Arguments Finished {A} result.
Arguments Cancelled {A}.

Definition done {A} (f : t A) : bool :=
  match f with Pending => false | _ => true end.

(** [f.set_result(v)]; [None] is [InvalidStateError]. *)
Definition set_result {A} (f : t A) (v : A) : option (t A) :=
  match f with
  | Pending => Some (Finished v)
  | _ => None
  end.

(** [f.cancel()]. *)
Definition cancel {A} (f : t A) : t A :=
  match f with
  | Pending => Cancelled
  | _ => f
  end.

End Future.

(** What the event loop hands to a suspended coroutine: the passing of one
  unit of time, or a payload dispatched to the handler of its channel. *)
Inductive event : Type :=
| Tick
| Deliver (payload : bytes).

(** Result of running an [await] against a finite list of events. *)
Inductive awaited (A : Type) : Type :=
| Returned (a : A)
| Raised
| Suspended.
Arguments Returned {A} a.
Arguments Raised {A}.
Arguments Suspended {A}.

(** How a call ends: it returns, or an exception leaves it. *)
Inductive ending : Type :=
| Returns
| Raises.

(** What [json.loads] does with a text: it returns a value, raises
    [json.JSONDecodeError], or raises something else ([RecursionError] on
    deep nesting, the [ValueError] of an integer with too many digits). *)
Inductive loads_outcome : Type :=
| Loaded (value : json)
| Decode_error
| Other_error.

(** ** What the sources import

  Library functions ([bytes.decode], [str.encode], [json], [base64],
  [Crypto.Cipher.AES] in CCM mode, the generated protobuf module
  [dt_fwinfo_pb2]) are taken as they are documented, as a parameter of
  the model. *)

Record Externals : Type := {
(** [b.decode("utf-8", errors="replace")] *)
bytes_decode_replace : bytes -> string;
(** [b.decode("utf-8")], on input that decodes *)
bytes_decode : bytes -> string;
(** [s.encode("utf-8")] *)
str_encode : string -> bytes;
(** [json.loads] *)
json_loads : string -> loads_outcome;
(** [json.dumps] *)
json_dumps : json -> string;
(** [base64.b64encode] *)
b64encode : bytes -> bytes;
(** the CCM tag of a message under a key and a nonce *)
ccm_tag : bytes -> bytes -> bytes -> bytes;
(** the CCM ciphertext of a message under a key and a nonce *)
ccm_encrypt : bytes -> bytes -> bytes -> bytes;
(** [pb.CommandMessage.FromString]: [None] when it raises, [Some None]
    for a message without [res.dev_info], else the serial number *)
pb_FromString : bytes -> option (option string);
(** the serialized [READ_DEVICE_INFO] request *)
pb_read_device_info : bytes
}.

(** The constants of the module [config], which is not among the
  sources. *)
Record Config : Type := {
MUX_PATH : string;
BAUDRATE : Z;
SETTINGS_MUX_ADDR : byte;
SMP_SRV_MUX_ADDR : byte;
RESTART_CMD : bytes;
AUTH_KEY : bytes
}.

(** ** [class SettingsHandler] *)

Module SettingsHandler.
Section WithExternals.
Context (ext : Externals).

Record t := mk {
  buffer : string;
  brace_count : Z;
  in_json : bool;
  response_future : option (Future.t (option json))
}.

Definition init : t := mk EmptyString 0 false None.

(** The [for ch in chunk] loop of [handle]. *)
Fixpoint count_braces (chunk : string) (brace_count : Z) (in_json : bool)
  : Z * bool :=
  match chunk with
  | EmptyString => (brace_count, in_json)
  | String ch chunk' =>
      if Ascii.eqb ch "{" then count_braces chunk' (brace_count + 1) true
      else if Ascii.eqb ch "}"
           then count_braces chunk' (brace_count - 1) in_json
           else count_braces chunk' brace_count in_json
  end.

(** [handle].  The result carries the object state that the call leaves,
    the values passed to [set_result] by this call, and how the call
    ends.  Only [json.JSONDecodeError] is caught: any other exception of
    [json.loads] leaves [handle], after the buffer and the counters have
    been updated and before anything is reset.  An [InvalidStateError] of
    [set_result] would leave it in the same way. *)
Definition handle (self : t) (payload : bytes)
  : t * list (option json) * ending :=
  let chunk := bytes_decode_replace ext payload in
  let buffer := String.append (buffer self) chunk in
  let '(brace_count, in_json) :=
    count_braces chunk (brace_count self) (in_json self) in
  if in_json && (brace_count =? 0) then
    match json_loads ext buffer with
    | Other_error =>
        (mk buffer brace_count in_json (response_future self), [], Raises)
    | outcome =>
        let json_obj :=
          match outcome with
          | Loaded value => Some value
          | _ => None
          end in
        match response_future self with
        | Some f =>
            if negb (Future.done f) then
              match Future.set_result f json_obj with
              | Some f' =>
                  (mk EmptyString brace_count false (Some f'), [json_obj],
                   Returns)
              | None => (mk buffer brace_count in_json (Some f), [], Raises)
              end
            else (mk EmptyString brace_count false (Some f), [], Returns)
        | None => (mk EmptyString brace_count false None, [], Returns)
        end
    end
  else (mk buffer brace_count in_json (response_future self), [], Returns).

(** One [handle] call per payload, each in its own [process_packet] task,
    which catches and logs what [handle] raises: the state left, the
    [set_result] calls made, and how each call ended. *)
Fixpoint handle_all (self : t) (payloads : list bytes)
  : t * list (option json) * list ending :=
  match payloads with
  | [] => (self, [], [])
  | p :: payloads' =>
      let '(self', rs, e) := handle self p in
      let '(self'', rs', es) := handle_all self' payloads' in
      (self'', rs ++ rs', e :: es)
  end.

(** [asyncio.wait_for(self.response_future, timeout)] followed by the
    [except asyncio.TimeoutError] of [wait_response].  [timeout] is in
    ticks.  What a [handle] raises is caught and logged by
    [process_packet], not seen by the waiter. *)
Fixpoint wait_for (timeout : nat) (self : t) (events : list event)
  : awaited (option json) * t :=
  match response_future self with
  | None => (Raised, self)
  | Some (Future.Finished v) => (Returned v, self)
  | Some Future.Cancelled => (Raised, self)
  | Some Future.Pending =>
      match timeout with
      | O =>
          (Returned None,
           mk (buffer self) (brace_count self) (in_json self)
              (Some (Future.cancel Future.Pending)))
      | S timeout' =>
          match events with
          | [] => (Suspended, self)
          | Tick :: events' => wait_for timeout' self events'
          | Deliver payload :: events' =>
              wait_for timeout (fst (fst (handle self payload))) events'
          end
      end
  end.

Definition wait_response (timeout : nat) (self : t) (events : list event)
  : awaited (option json) * t :=
  let self :=
    mk (buffer self) (brace_count self) (in_json self)
       (Some Future.Pending) in
  wait_for timeout self events.

End WithExternals.

(** What [verify] logs. *)
Inductive log_record : Type :=
| Log_value (key : string) (received_value : json)
| Log_mismatch (expected got : json)
| Log_missing (key : string).

Definition is_error (r : log_record) : bool :=
  match r with Log_value _ _ => false | _ => true end.

Definition excluded_keys : list string :=
  ["save"; "reset"; "settings/key_0"; "settings/key_1"; "settings/key_2"]%string.

Definition is_excluded (key : string) : bool :=
  existsb (String.eqb key) excluded_keys.

(** The [for key, value in expected.items()] loop of [verify]. *)
Fixpoint verify_loop (items : dict) (received : dict) (is_verified : bool)
  : bool * list log_record :=
  match items with
  | [] => (is_verified, [])
  | (key, value) :: items' =>
      if is_excluded key then verify_loop items' received is_verified
      else
        match PyDict.get key received with
        | Some received_value =>
            if negb (PyValue.eqb received_value value) then
              let '(b, logs) := verify_loop items' received false in
              (b, Log_value key received_value
                    :: Log_mismatch value received_value :: logs)
            else
              let '(b, logs) := verify_loop items' received is_verified in
              (b, Log_value key received_value :: logs)
        | None =>
            let '(b, logs) := verify_loop items' received false in
            (b, Log_missing key :: logs)
        end
  end.

(** [verify] with what it logs.  [received] is a [dict] or [None]. *)
Definition verify_logged (expected : dict) (received : option dict)
  : bool * list log_record :=
  if negb (PyValue.truthy_dict received) then (false, [])
  else
    match received with
    | None => (false, [])
    | Some received => verify_loop expected received true
    end.

Definition verify (expected : dict) (received : option dict) : bool :=
  fst (verify_logged expected received).

End SettingsHandler.

(** ** [class FWInfoReader] *)

Module FWInfoReader.

Definition FWINFO_MUX_ADDR : byte := 0x12.

Section WithExternals.
Context (ext : Externals).

Record t := mk { _serial_future : Future.t string }.

(** [__init__]: the future exists from construction on. *)
Definition init : t := mk Future.Pending.

(** [handler]; every exception is caught and logged inside it. *)
Definition handler (self : t) (payload : bytes) : t :=
  match pb_FromString ext payload with
  | Some (Some serial_number) =>
      if negb (Future.done (_serial_future self)) then
        match Future.set_result (_serial_future self) serial_number with
        | Some f => mk f
        | None => self
        end
      else self
  | Some None => self
  | None => self
  end.

Definition build_request : bytes := pb_read_device_info ext.

(** [wait_serial]: [await self._serial_future]. *)
Fixpoint wait_serial (self : t) (events : list event)
  : awaited string * t :=
  match _serial_future self with
  | Future.Finished serial => (Returned serial, self)
  | Future.Cancelled => (Raised, self)
  | Future.Pending =>
      match events with
      | [] => (Suspended, self)
      | Tick :: events' => wait_serial self events'
      | Deliver payload :: events' =>
          wait_serial (handler self payload) events'
      end
  end.

End WithExternals.
End FWInfoReader.

(** ** [class DTSettingsAuthorizer] *)

Module DTSettingsAuthorizer.
Section WithExternals.
Context (ext : Externals).

(** The process's source of random bytes, the only ambient state that
    [AES.new] may read. *)
Definition entropy := list byte.

(** The cipher object: key, nonce, and the plaintext passed to [encrypt] so
    far. *)
Record cipher := mk_cipher {
  c_key : bytes;
  c_nonce : bytes;
  c_message : bytes
}.

(** The key lengths that AES takes, and the nonce lengths that CCM
    takes. *)
Definition valid_key (key : bytes) : bool :=
  let n := List.length key in
  ((n =? 16) || (n =? 24) || (n =? 32))%nat.

Definition valid_nonce (nonce : bytes) : bool :=
  let n := List.length nonce in
  ((7 <=? n) && (n <=? 13))%nat.

(** [AES.new(key, AES.MODE_CCM, nonce=nonce)]; [None] is the [ValueError]
    for a key or a nonce of a wrong length.  Without a nonce the library
    draws 11 random bytes. *)
Definition AES_new_CCM (key : bytes) (nonce : option bytes) (rnd : entropy)
  : option (cipher * entropy) :=
  if negb (valid_key key) then None
  else
    match nonce with
    | Some n => if valid_nonce n then Some (mk_cipher key n [], rnd) else None
    | None => Some (mk_cipher key (firstn 11 rnd) [], skipn 11 rnd)
    end.

Definition encrypt (c : cipher) (plaintext : bytes) : bytes * cipher :=
  (ccm_encrypt ext (c_key c) (c_nonce c) (c_message c ++ plaintext),
   mk_cipher (c_key c) (c_nonce c) (c_message c ++ plaintext)).

Definition digest (c : cipher) : bytes :=
  ccm_tag ext (c_key c) (c_nonce c) (c_message c).

(** [bytearray(13)] *)
Definition zero_nonce : bytes := repeat 0 13.

Record t := mk { key : bytes }.

(** [sign_settings]; [None] is the [ValueError] that [AES.new] raises. *)
Definition sign_settings (self : t) (settings : dict) (serial : string)
  (rnd : entropy) : option (dict * entropy) :=
  let settings_with_sn := settings in
  let settings_with_sn := PyDict.set "sn" (JStr serial) settings_with_sn in
  let content :=
    b64encode ext (str_encode ext (json_dumps ext (JObj settings_with_sn))) in
  match AES_new_CCM (key self) (Some zero_nonce) rnd with
  | None => None
  | Some (c, rnd) =>
      let '(_, c) := encrypt c content in
      let tag := digest c in
      let signature := b64encode ext tag in
      Some ([("cnt"%string, JStr (bytes_decode ext content));
             ("sig"%string, JStr (bytes_decode ext signature))],
            rnd)
  end.

End WithExternals.
End DTSettingsAuthorizer.

(** ** [main.py] *)

Module Main.
Section WithEnvironment.
Context (ext : Externals) (cfg : Config).

(** Which function of [main.py] made a [transport.write] call. *)
Inductive writer : Type :=
| By_read_settings
| By_upload_settings
| By_main_fwinfo
| By_restart_device.

(** What the coroutine [main] does, in order: its calls on the dispatcher
    and the transport, its pauses, and the [logger] calls that it and the
    functions it calls make ([upload_settings], [wait_response], [verify],
    [sign_settings], [build_request]).  The [logger] calls of the tasks
    that the event loop runs while [main] is suspended ([connection_made],
    [process_packet] and the handlers) are not part of it. *)
Inductive action : Type :=
| Connect                                   (* [dispatcher.start] *)
| Transport_write (who : writer) (frame : bytes)    (* [transport.write] *)
| Transport_close                                   (* [transport.close] *)
| Sleep (milliseconds : Z)                (* [asyncio.sleep] *)
| Log_info (message : string)
| Log_warning (message : string)
| Log_error (message : string)
| Log_debug (message : string)
| Log_verify (record : SettingsHandler.log_record).  (* a line of [verify] *)

(** How a [wait_response()] call ends: the timeout passes, or the future
    is resolved, with a mapping or with the [None] of an answer that did
    not parse.  The device is taken to answer with JSON objects: an
    answer that parses to another JSON value (a list, a string that holds
    braces) is not among the replies. *)
Inductive reply : Type :=
| Timeout
| Resolved (value : option dict).

(** The value that [wait_response()] returns. *)
Definition reply_value (r : reply) : option dict :=
  match r with
  | Timeout => None
  | Resolved value => value
  end.

(** What [wait_response()] logs. *)
Definition reply_log (r : reply) : list action :=
  match r with
  | Timeout => [Log_warning "Timeout waiting for settings response"]
  | Resolved _ => []
  end.

(** What the outside answers, in the order the run asks:
    - [settings_replies]: how each [wait_response()] call ends (a missing
      entry counts as a timeout);
    - [serial_reply]: the value of [wait_serial()], [None] when the serial
      future is never resolved;
    - [start_replies]: whether each [dispatcher.start] returns ([true]) or
      raises (a missing entry counts as returning). *)
Record device := mk_device {
  settings_replies : list reply;
  serial_reply : option string;
  start_replies : list bool
}.

Record world := mk_world {
  dev : device;
  trace : list action;
  rnd : DTSettingsAuthorizer.entropy
}.

(** State passing over the [world]. *)
Definition M (A : Type) : Type := world -> A * world.
Definition ret {A} (a : A) : M A := fun w => (a, w).
Definition bind {A B} (m : M A) (k : A -> M B) : M B :=
  fun w => let '(a, w') := m w in k a w'.

Notation "x <- m ;; k" := (bind m (fun x => k))
  (at level 61, m at next level, right associativity).
Notation "m ;;; k" := (bind m (fun _ => k))
  (at level 61, right associativity).

Definition emit (a : action) : M unit :=
  fun w => (tt, mk_world (dev w) (trace w ++ [a]) (rnd w)).

Fixpoint emit_all (l : list action) : M unit :=
  match l with
  | [] => ret tt
  | a :: l' => emit a ;;; emit_all l'
  end.

Definition wait_response : M (option dict) :=
  fun w =>
    match settings_replies (dev w) with
    | [] =>
        (reply_value Timeout,
         mk_world (dev w) (trace w ++ reply_log Timeout) (rnd w))
    | r :: rest =>
        (reply_value r,
         mk_world (mk_device rest (serial_reply (dev w))
                             (start_replies (dev w)))
                  (trace w ++ reply_log r) (rnd w))
    end.

Definition wait_serial : M (option string) :=
  fun w => (serial_reply (dev w), w).

Definition dispatcher_start : M bool :=
  fun w =>
    match start_replies (dev w) with
    | [] => (true, mk_world (dev w) (trace w ++ [Connect]) (rnd w))
    | ok :: rest =>
        (ok, mk_world (mk_device (settings_replies (dev w))
                                 (serial_reply (dev w)) rest)
                      (trace w ++ [Connect]) (rnd w))
    end.

(** [authorizer.sign_settings(settings, serial)]: its debug line, then
    its value, or [None] when it raises. *)
Definition sign (key : bytes) (settings : dict) (serial : string)
  : M (option dict) :=
  emit (Log_debug "Signing content") ;;;
  fun w =>
    match
      DTSettingsAuthorizer.sign_settings ext (DTSettingsAuthorizer.mk key)
        settings serial (rnd w)
    with
    | Some (signed, r) => (Some signed, mk_world (dev w) (trace w) r)
    | None => (None, w)
    end.

Definition restart_frame : bytes :=
  Slip.encode ([SMP_SRV_MUX_ADDR cfg] ++ RESTART_CMD cfg).

Definition restart_device : M unit :=
  emit (Transport_write By_restart_device restart_frame).

Definition read_settings : M unit :=
  let read_request :=
    [SETTINGS_MUX_ADDR cfg] ++ str_encode ext "{}" in
  emit (Transport_write By_read_settings (Slip.encode read_request)).

Definition upload_settings (payload : dict) (verify_dict : option dict)
  : M bool :=
  let json_bytes := str_encode ext (json_dumps ext (JObj payload)) in
  let packet := [SETTINGS_MUX_ADDR cfg] ++ json_bytes in
  let encoded := Slip.encode packet in
  emit (Transport_write By_upload_settings encoded) ;;;
  emit (Sleep 200) ;;;
  read_settings ;;;
  received <- wait_response ;;
  if negb (PyValue.truthy_dict received) then
    emit (Log_error "No JSON received from device") ;;;
    ret false
  else if PyValue.truthy_dict verify_dict then
    match verify_dict with
    | Some verify_dict =>
        emit_all
          (map Log_verify
             (snd (SettingsHandler.verify_logged verify_dict received))) ;;;
        if SettingsHandler.verify verify_dict received then
          emit (Log_info "Verification OK") ;;; ret true
        else
          emit (Log_error "Verification failed") ;;; ret false
    | None => ret true
    end
  else ret true.

(** The [for i in range(10)] loop of the reconnect; [true] when it left
    through [break], [false] when the range was exhausted. *)
Fixpoint reconnect (attempts : nat) : M bool :=
  match attempts with
  | O => ret false
  | S attempts' =>
      emit (Sleep 1000) ;;;
      started <- dispatcher_start ;;
      if started then
        emit (Log_info "Reconnected to device, checking settings...") ;;;
        read_settings ;;;
        received <- wait_response ;;
        if PyValue.truthy_dict received then
          emit (Log_info "Device restarted successfully") ;;;
          ret true
        else reconnect attempts'
      else
        emit (Log_debug "Reconnect attempt failed") ;;;
        reconnect attempts'
  end.

(** How a run of [main] ends. *)
Inductive outcome : Type :=
| Finished          (* [main] returned *)
| Escaped           (* an exception left [main] *)
| Hung.             (* [main] is suspended for ever *)

Definition settings_to_send : dict :=
  [("app/brightness"%string, JInt 25); ("save"%string, JBool true)].

Definition lock_settings : dict :=
  [("settings/lock"%string, JBool true); ("save"%string, JBool true)].

Definition setup_access_settings : dict :=
  [("settings/acl_0"%string,
    JStr "//////////////////////////////////////////8=");
   ("settings/key_0"%string,
    JStr (bytes_decode ext (b64encode ext (AUTH_KEY cfg))));
   ("save"%string, JBool true)].

(** Step 3 of [main], from the serial request on. *)
Definition signed_settings_flow : M outcome :=
  let key := AUTH_KEY cfg in
  emit (Log_debug "Sending FWINFO request") ;;;
  let msgSer := FWInfoReader.build_request ext in
  emit (Transport_write By_main_fwinfo
          (Slip.encode ([FWInfoReader.FWINFO_MUX_ADDR] ++ msgSer))) ;;;
  serial <- wait_serial ;;
  match serial with
  | None => ret Hung
  | Some serial =>
      emit (Log_info "Using serial") ;;;
      signed_settings <- sign key settings_to_send serial ;;
      match signed_settings with
      | None => ret Escaped
      | Some signed_settings =>
          _ <- upload_settings signed_settings (Some settings_to_send) ;;
          restart_device ;;;
          emit (Log_info
                  "Restart command sent, waiting for device to come back...") ;;;
          emit Transport_close ;;;
          reconnected <- reconnect 10 ;;
          (if reconnected then ret tt
           else emit (Log_error "Device restart timed out")) ;;;
          emit Transport_close ;;;
          ret Finished
      end
  end.

Definition main : M outcome :=
  started <- dispatcher_start ;;
  if negb started then ret Escaped else
  emit (Log_info "Connected") ;;;
  read_settings ;;;
  received <- wait_response ;;
  if negb (PyValue.truthy_dict received) then
    emit (Log_error "No JSON received on initial read") ;;;
    emit Transport_close ;;;
    ret Finished
  else
    let is_locked :=
      match received with
      | Some d =>
          match PyDict.get "settings/lock" d with
          | Some v => v
          | None => JBool false
          end
      | None => JBool false
      end in
    if negb (PyValue.truthy is_locked) then
      emit (Log_info "Device is unlocked, running init setup to lock the device.") ;;;
      ok <- upload_settings setup_access_settings (Some setup_access_settings) ;;
      if negb ok then
        emit (Log_error "Failed to prepare ACL/key on unlocked device") ;;;
        emit Transport_close ;;;
        ret Finished
      else
        ok <- upload_settings lock_settings (Some lock_settings) ;;
        if negb ok then
          emit (Log_error "Failed to lock device") ;;;
          emit Transport_close ;;;
          ret Finished
        else
          emit (Log_info "Device successfully locked") ;;;
          signed_settings_flow
    else
      emit (Log_info "Device is already locked, continuing with signed settings") ;;;
      signed_settings_flow.

(** Running [main] against a device from an empty trace. *)
Definition run (d : device) (r : DTSettingsAuthorizer.entropy)
  : outcome * list action :=
  let '(o, w) := main (mk_world d [] r) in (o, trace w).

End WithEnvironment.
End Main.

(** ** Auxiliary definitions used in the statements and proofs *)

Module SlipAux.
Import Slip.

(** The escaping of one byte by [encode]. *)
Definition escape (c : byte) : bytes :=
  if c =? ESC then [ESC; ESC_ESC]
  else if c =? END then [ESC; ESC_END]
  else [c].

(** [END] alone escaped, every other byte kept. *)
Definition escape_end (c : byte) : bytes :=
  if c =? END then [ESC; ESC_END] else [c].

(** [a] immediately followed by [b] somewhere in [s]. *)
Fixpoint has_adjacent (a b : byte) (s : bytes) : bool :=
  match s with
  | [] => false
  | c :: s' =>
      match s' with
      | [] => false
      | d :: _ => ((c =? a) && (d =? b)) || has_adjacent a b s'
      end
  end.

(** Cutting a stream after each [END], by one pass over it: the complete
    frames and the unterminated rest.  [acc] is the frame being read. *)
Fixpoint split_frames (acc s : bytes) : list bytes * bytes :=
  match s with
  | [] => ([], acc)
  | c :: s' =>
      if c =? END then
        let '(frames, rest) := split_frames [] s' in
        ((acc ++ [c]) :: frames, rest)
      else split_frames (acc ++ [c]) s'
  end.

(** A raw frame: bytes other than [END], then one [END]. *)
Definition is_raw_frame (f : bytes) : Prop :=
  exists body, f = body ++ [END] /\ PyBytes.contains END body = false.

End SlipAux.

Module DelimitedAux.
Import ProtobufDelimitedBuffer.

(** The messages that the loop of [feed] takes off a buffer, and what it
    leaves. *)
Definition drain (b : bytes) : list bytes * bytes :=
  match feed_loop (S (List.length b)) b with
  | Some r => r
  | None => ([], b)
  end.

End DelimitedAux.

Module VerifyAux.
Import SettingsHandler.

(** An item of [expected] that [verify] reports: its key is not excluded,
    and is missing from [received] or has another value there. *)
Definition item_fails (received : dict) (item : string * json) : bool :=
  let '(key, value) := item in
  negb (is_excluded key)
  && match PyDict.get key received with
     | Some received_value => negb (PyValue.eqb received_value value)
     | None => true
     end.

End VerifyAux.

(** Stand-ins for the imported functions, for running the model on
    examples.  Texts are ASCII, where decoding a byte gives the character
    with that code. *)
Module Sample.

Definition latin1 (b : bytes) : string :=
  fold_right (fun c s => String (ascii_of_N (Z.to_N c)) s) EmptyString b.

Definition codes (s : string) : bytes :=
  map (fun a => Z.of_N (N_of_ascii a)) (list_ascii_of_string s).

(** [{"a": 1}] *)
Definition text_flat : bytes := [123; 34; 97; 34; 58; 32; 49; 125].
Definition value_flat : json := JObj [("a"%string, JInt 1)].

(** [{"a": {"b": 2}}] *)
Definition text_nested : bytes :=
  [123; 34; 97; 34; 58; 32; 123; 34; 98; 34; 58; 32; 50; 125; 125].
Definition value_nested : json :=
  JObj [("a"%string, JObj [("b"%string, JInt 2)])].

(** [{"a": "}"}] *)
Definition text_brace : bytes := [123; 34; 97; 34; 58; 32; 34; 125; 34; 125].
Definition value_brace : json := JObj [("a"%string, JStr "}")].

(** [{"n": 99...9}] with 4301 digits: more than Python converts to an
    integer, so that [json.loads] raises a [ValueError] that is not a
    [json.JSONDecodeError]. *)
Definition text_digits : bytes :=
  [123; 34; 110; 34; 58; 32] ++ repeat 57 4301 ++ [125].

(** A decoder that knows the texts above and rejects every other one. *)
Definition loads (s : string) : loads_outcome :=
  if String.eqb s (latin1 text_flat) then Loaded value_flat
  else if String.eqb s (latin1 text_nested) then Loaded value_nested
  else if String.eqb s (latin1 text_brace) then Loaded value_brace
  else if String.eqb s (latin1 text_digits) then Other_error
  else Decode_error.

(** A firmware-info decoder: no bytes do not parse, a first byte [0] is a
    message without device info, any other first byte is followed by the
    serial number. *)
Definition FromString (payload : bytes) : option (option string) :=
  match payload with
  | [] => None
  | 0 :: _ => Some None
  | _ :: serial => Some (Some (latin1 serial))
  end.

Definition externals : Externals := {|
  bytes_decode_replace := latin1;
  bytes_decode := latin1;
  str_encode := codes;
  json_loads := loads;
  json_dumps := fun _ => EmptyString;
  b64encode := fun b => b;
  ccm_tag := fun key nonce message => key ++ nonce ++ message;
  ccm_encrypt := fun key nonce message => message;
  pb_FromString := FromString;
  pb_read_device_info := [1]
|}.

Definition config : Config := {|
  MUX_PATH := "/dev/ttyACM0";
  BAUDRATE := 115200;
  SETTINGS_MUX_ADDR := 0x10;
  SMP_SRV_MUX_ADDR := 0x11;
  RESTART_CMD := [0x52];
  AUTH_KEY := repeat 0x2A 16
|}.


End Sample.

Module HandlerAux.
Import SettingsHandler.

(** The state of a handler on which [wait_response] has just been
    called. *)
Definition waiting : t := mk EmptyString 0 false (Some Future.Pending).

(** The value that a parse hands to [set_result]: [None] for a
    [json.JSONDecodeError]. *)
Definition parsed (outcome : loads_outcome) : option json :=
  match outcome with
  | Loaded value => Some value
  | _ => None
  end.

(** The text that a list of payloads decodes to. *)
Definition decoded (ext : Externals) (payloads : list bytes) : string :=
  fold_right (fun p s => String.append (bytes_decode_replace ext p) s)
    EmptyString payloads.

(** Starting from a brace count and an [in_json] flag, the completion test
    of [handle] holds after the last character of [s] and at no point
    before it. *)
Fixpoint closes_at_end (brace_count : Z) (in_json : bool) (s : string)
  : bool :=
  match s with
  | EmptyString => in_json && (brace_count =? 0)
  | String ch s' =>
      negb (in_json && (brace_count =? 0))
      && (if Ascii.eqb ch "{" then closes_at_end (brace_count + 1) true s'
          else if Ascii.eqb ch "}"
               then closes_at_end (brace_count - 1) in_json s'
               else closes_at_end brace_count in_json s')
  end.

(** A text whose braces open an object first, nest, and close it with the
    last character: the shape of a serialized JSON object none of whose
    strings holds a brace. *)
Definition well_nested (s : string) : bool := closes_at_end 0 false s.

End HandlerAux.

Module Scenarios.
Import Main.

Definition is_restart (a : action) : bool :=
  match a with Transport_write By_restart_device _ => true | _ => false end.

Definition is_fwinfo_request (a : action) : bool :=
  match a with Transport_write By_main_fwinfo _ => true | _ => false end.

Definition is_start (a : action) : bool :=
  match a with Connect => true | _ => false end.

Definition run_sample (d : device) : outcome * list action :=
  run Sample.externals Sample.config d [].

(** A device that reports the lock, answers the serial request, and reads
    back another brightness than the one uploaded. *)
Definition mismatching_device : device :=
  mk_device
    [Resolved (Some [("settings/lock"%string, JBool true)]);
     Resolved (Some [("settings/lock"%string, JBool true);
                     ("app/brightness"%string, JInt 30)]);
     Resolved (Some [("settings/lock"%string, JBool true)])]
    (Some "ABC123"%string) [true; true].

(** A device that is unlocked, takes the access set-up, and does not read
    back the lock. *)
Definition unlockable_device : device :=
  mk_device
    [Resolved (Some [("app/brightness"%string, JInt 10)]);
     Resolved (Some [("settings/acl_0"%string,
                      JStr "//////////////////////////////////////////8=")]);
     Resolved (Some [("settings/lock"%string, JBool false)])]
    (Some "ABC123"%string) [].

(** A device that is locked, answers the serial request, reads back the
    uploaded brightness, and is back at the third reconnect attempt. *)
Definition good_device : device :=
  mk_device
    [Resolved (Some [("settings/lock"%string, JBool true)]);
     Resolved (Some [("settings/lock"%string, JBool true);
                     ("app/brightness"%string, JInt 25)]);
     Timeout;
     Resolved (Some [("settings/lock"%string, JBool true)])]
    (Some "ABC123"%string) [true; false; true; true].

(** A device that never sends its serial number. *)
Definition mute_device : device :=
  mk_device [Resolved (Some [("settings/lock"%string, JBool true)])] None [].

End Scenarios.

(** ** [class SlipDispatcher], and the handler look-up of
    [SlipSerialReader.process_packet] *)

Module SlipDispatcher.
Section WithHandlers.
Context {handler : Type}.

(** [Dict[int, List[HandlerType]]], in insertion order. *)
Definition handler_map := list (byte * list handler).

(** [__init__] *)
Definition init : handler_map := [].

(** [m.get(address)] *)
Fixpoint get (address : byte) (m : handler_map) : option (list handler) :=
  match m with
  | [] => None
  | (a, hs) :: m' => if a =? address then Some hs else get address m'
  end.

(** [address in m] *)
Definition contains (address : byte) (m : handler_map) : bool :=
  match get address m with Some _ => true | None => false end.

(** [m[address].append(h)] for an address that is in [m]. *)
Fixpoint append_at (address : byte) (h : handler) (m : handler_map)
  : handler_map :=
  match m with
  | [] => []
  | (a, hs) :: m' =>
      if a =? address then (a, hs ++ [h]) :: m'
      else (a, hs) :: append_at address h m'
  end.

Definition register_handler (self : handler_map) (address : byte)
  (h : handler) : handler_map :=
  let self :=
    if negb (contains address self) then self ++ [(address, [])] else self in
  append_at address h self.

(** [self.handler_map.get(address, [])] *)
Definition handlers_for (self : handler_map) (address : byte) : list handler :=
  match get address self with
  | Some hs => hs
  | None => []
  end.

(** [process_packet] with its handlers: the calls [handler(payload)] that
    are gathered, in the order in which they are made. *)
Definition process_packet_calls (self : handler_map) (packet : bytes)
  : list (handler * bytes) :=
  match SlipSerialReader.process_packet packet with
  | None => []
  | Some (address, payload) =>
      let handlers := handlers_for self address in
      match handlers with
      | [] => []
      | _ :: _ => map (fun h => (h, payload)) handlers
      end
  end.

End WithHandlers.
End SlipDispatcher.

Module FrameAux.
Import Slip SlipAux.

(** No [END], and every [ESC] followed by [ESC_END] or [ESC_ESC]. *)
Fixpoint well_escaped (s : bytes) : bool :=
  match s with
  | [] => true
  | c :: s' =>
      if c =? ESC then
        match s' with
        | [] => false
        | d :: s'' => ((d =? ESC_END) || (d =? ESC_ESC)) && well_escaped s''
        end
      else negb (c =? END) && well_escaped s'
  end.

(** The bytes that [encode] escapes. *)
Definition reserved (c : byte) : bool := (c =? ESC) || (c =? END).

Definition starts_with_END (x : bytes) : bool :=
  match x with
  | [] => false
  | c :: _ => c =? END
  end.

(** Data that [decode] gives back: no [ESC ESC_END] pair in it and no
    [END] at either end. *)
Definition survives (x : bytes) : bool :=
  negb (has_adjacent ESC ESC_END x)
  && negb (starts_with_END x)
  && negb (starts_with_END (rev x)).

(** The decoded frame of unescaped frame data, as [process_packet] splits
    it. *)
Definition address_payload (x : bytes) : option (byte * bytes) :=
  match x with
  | [] => None
  | address :: payload => Some (address, payload)
  end.

Fixpoint somes {A : Type} (l : list (option A)) : list A :=
  match l with
  | [] => []
  | Some a :: l' => a :: somes l'
  | None :: l' => somes l'
  end.

End FrameAux.

Module ReassemblyAux.
Import SettingsHandler.

(** Opening minus closing braces of a text. *)
Definition brace_delta (s : string) : Z := fst (count_braces s 0 false).

(** The payloads among the events, in order, and the number of ticks. *)
Fixpoint payloads_of (events : list event) : list bytes :=
  match events with
  | [] => []
  | Tick :: events' => payloads_of events'
  | Deliver p :: events' => p :: payloads_of events'
  end.

Fixpoint ticks_of (events : list event) : nat :=
  match events with
  | [] => O
  | Tick :: events' => S (ticks_of events')
  | Deliver _ :: events' => ticks_of events'
  end.

(** The serial number that an event carries, if it is a payload that
    parses to a message with device info. *)
Definition serial_of (ext : Externals) (e : event) : option string :=
  match e with
  | Tick => None
  | Deliver p =>
      match pb_FromString ext p with
      | Some (Some serial) => Some serial
      | _ => None
      end
  end.

End ReassemblyAux.

Module DictAux.

(** [d.update(other)]: the items of [other] assigned one by one. *)
Definition update (d other : dict) : dict :=
  fold_left (fun d item => PyDict.set (fst item) (snd item) d) other d.

End DictAux.

Module TraceAux.
Import Main.

Definition is_write (a : action) : bool :=
  match a with Transport_write _ _ => true | _ => false end.

Definition is_log (a : action) : bool :=
  match a with
  | Log_info _ | Log_warning _ | Log_error _ | Log_debug _ | Log_verify _ =>
      true
  | _ => false
  end.

(** The lines of [verify], as actions of the trace. *)
Definition verify_log (verify_dict : dict) (received : option dict)
  : list action :=
  map Log_verify (snd (SettingsHandler.verify_logged verify_dict received)).

(** What [upload_settings] and its callees log for a reply: the line of
    [wait_response], the lines of [verify], and the line of
    [upload_settings] itself. *)
Definition upload_log (verify_dict : option dict) (r : reply)
  : list action :=
  reply_log r
  ++ (if negb (PyValue.truthy_dict (reply_value r)) then
        [Log_error "No JSON received from device"]
      else if PyValue.truthy_dict verify_dict then
        match verify_dict with
        | Some verify_dict =>
            verify_log verify_dict (reply_value r)
            ++ (if SettingsHandler.verify verify_dict (reply_value r)
                then [Log_info "Verification OK"]
                else [Log_error "Verification failed"])
        | None => []
        end
      else []).

(** What [upload_settings] answers for a read-back. *)
Definition upload_ok (verify_dict received : option dict) : bool :=
  PyValue.truthy_dict received
  && (if PyValue.truthy_dict verify_dict then
        match verify_dict with
        | Some verify_dict => SettingsHandler.verify verify_dict received
        | None => true
        end
      else true).

(** The next reply that a world holds for [wait_response()]. *)
Definition next_reply (w : world) : reply :=
  hd Timeout (settings_replies (dev w)).

(** What the reconnect loop may do: pause, connect, ask for the settings,
    log. *)
Definition reconnect_action (a : action) : bool :=
  match a with
  | Sleep _ | Connect => true
  | Log_info _ | Log_warning _ | Log_error _ | Log_debug _ => true
  | Log_verify _ => false
  | Transport_write By_read_settings _ => true
  | Transport_write _ _ => false
  | Transport_close => false
  end.

Section WithEnvironment.
Context (ext : Externals) (cfg : Config).

(** The frame that [upload_settings] writes for a payload, and the read
    request of [read_settings]. *)
Definition upload_frame (payload : dict) : bytes :=
  Slip.encode ([SETTINGS_MUX_ADDR cfg]
               ++ str_encode ext (json_dumps ext (JObj payload))).

Definition read_frame : bytes :=
  Slip.encode ([SETTINGS_MUX_ADDR cfg] ++ str_encode ext "{}").

(** What [main] does up to and including its first [wait_response]. *)
Definition opening : list action :=
  [Connect; Log_info "Connected"; Transport_write By_read_settings read_frame].

(** What one [upload_settings] call does before it logs. *)
Definition upload_actions (payload : dict) : list action :=
  [Transport_write By_upload_settings (upload_frame payload);
   Sleep 200;
   Transport_write By_read_settings read_frame].

End WithEnvironment.

End TraceAux.

(** * Proofs *)

(** Induction on lists two elements at a time, for scans that look one
    byte ahead. *)
Lemma list_pair_ind (A : Type) (P : list A -> Prop) :
  P [] -> (forall a, P [a]) ->
  (forall a b l, P l -> P (b :: l) -> P (a :: b :: l)) ->
  forall l, P l.
Proof.
  intros H0 H1 H2 l.
  assert (H : P l /\ forall a, P (a :: l)).
  { induction l as [|b l [IHl IHc]]; split; auto. }
  apply H.
Qed.

Module SlipFacts.
Import PyBytes Slip SlipAux.

Lemma replace_single (a : byte) (new s : bytes) :
  replace [a] new s = flat_map (fun c => if a =? c then new else [c]) s.
Proof.
  unfold replace.
  induction s as [|c s IH]; simpl; [reflexivity|].
  rewrite andb_true_r. destruct (a =? c); simpl; now rewrite IH.
Qed.

Lemma replace_pair_nil (a b : byte) (new : bytes) :
  replace [a; b] new [] = [].
Proof. reflexivity. Qed.

Lemma replace_pair_one (a b : byte) (new : bytes) (c : byte) :
  replace [a; b] new [c] = [c].
Proof. unfold replace; simpl. now rewrite andb_false_r. Qed.

Lemma replace_pair_cons (a b : byte) (new : bytes) (c d : byte) (s : bytes) :
  replace [a; b] new (c :: d :: s) =
  if (a =? c) && (b =? d) then new ++ replace [a; b] new s
  else c :: replace [a; b] new (d :: s).
Proof. unfold replace; simpl. now rewrite andb_true_r. Qed.

Lemma replace_pair_skip (a b : byte) (new : bytes) (c : byte) (s : bytes) :
  (a =? c) = false ->
  replace [a; b] new (c :: s) = c :: replace [a; b] new s.
Proof.
  intros H. destruct s as [|d s].
  - apply replace_pair_one.
  - rewrite replace_pair_cons, H. reflexivity.
Qed.

Lemma flat_map_flat_map (A B C : Type) (f : A -> list B) (g : B -> list C)
  (l : list A) :
  flat_map g (flat_map f l) = flat_map (fun a => flat_map g (f a)) l.
Proof.
  induction l as [|a l IH]; [reflexivity|].
  cbn [flat_map]. now rewrite flat_map_app, IH.
Qed.

Lemma encode_escape (x : bytes) :
  encode x = flat_map escape x ++ [END].
Proof.
  unfold encode, END_b, ESC_b, ESC_END_b, ESC_ESC_b. f_equal.
  rewrite !replace_single, flat_map_flat_map.
  apply flat_map_ext. intros c.
  unfold escape. rewrite (Z.eqb_sym c ESC), (Z.eqb_sym c END).
  destruct (ESC =? c) eqn:E1; cbn [flat_map app].
  - reflexivity.
  - now rewrite app_nil_r.
Qed.

(** The first substitution of [decode] undoes the escaping of [ESC]... *)
Lemma unescape_esc (x t : bytes) :
  replace [ESC; ESC_ESC] [ESC] (flat_map escape x ++ t) =
  flat_map escape_end x ++ replace [ESC; ESC_ESC] [ESC] t.
Proof.
  induction x as [|c x IH]; [reflexivity|].
  cbn [flat_map]. rewrite <- !app_assoc.
  unfold escape at 1, escape_end at 1.
  destruct (c =? ESC) eqn:E1.
  - apply Z.eqb_eq in E1; subst c. cbn [app].
    rewrite replace_pair_cons. cbn [Z.eqb ESC ESC_ESC Pos.eqb andb app].
    now rewrite IH.
  - destruct (c =? END) eqn:E2; cbn [app].
    + rewrite replace_pair_cons. cbn [Z.eqb ESC ESC_ESC ESC_END Pos.eqb andb].
      rewrite replace_pair_skip by reflexivity. now rewrite IH.
    + rewrite replace_pair_skip by (now rewrite Z.eqb_sym). now rewrite IH.
Qed.

(** ...and the second one then turns [ESC ESC_END] into [END] both where
    [encode] wrote it and where the data had it. *)
Lemma unescape_end (x t : bytes) :
  replace [ESC; ESC_END] [END] (flat_map escape_end x ++ t) =
  replace [ESC; ESC_END] [END] (x ++ t).
Proof.
  revert t. induction x as [| c | c d x IH IHd] using list_pair_ind; intros t.
  - reflexivity.
  - cbn [flat_map app]. unfold escape_end. destruct (c =? END) eqn:E.
    + apply Z.eqb_eq in E; subst c. cbn [app].
      rewrite replace_pair_cons. cbn [Z.eqb ESC ESC_END Pos.eqb andb app].
      now rewrite replace_pair_skip by reflexivity.
    + reflexivity.
  - change (flat_map escape_end (c :: d :: x))
      with (escape_end c ++ flat_map escape_end (d :: x)).
    specialize (IHd t). rewrite <- app_assoc.
    unfold escape_end at 1. destruct (c =? END) eqn:E.
    + apply Z.eqb_eq in E; subst c.
      cbn [app]. rewrite replace_pair_cons.
      cbn [Z.eqb andb ESC ESC_END Pos.eqb app].
      rewrite (replace_pair_skip ESC ESC_END [END] END) by reflexivity.
      now rewrite IHd.
    + cbn [app]. destruct (ESC =? c) eqn:Ec.
      * apply Z.eqb_eq in Ec; subst c.
        change (flat_map escape_end (d :: x))
          with (escape_end d ++ flat_map escape_end x) in *.
        rewrite <- app_assoc in *.
        unfold escape_end at 1. unfold escape_end at 1 in IHd.
        destruct (d =? END) eqn:Ed.
        -- apply Z.eqb_eq in Ed; subst d. cbn [app] in *.
           rewrite replace_pair_cons. cbn [Z.eqb andb ESC ESC_END Pos.eqb].
           rewrite IHd.
           rewrite (replace_pair_cons ESC ESC_END [END] ESC END).
           reflexivity.
        -- cbn [app] in *. rewrite !replace_pair_cons.
           destruct (ESC_END =? d) eqn:Ed'; cbn [andb Z.eqb ESC Pos.eqb].
           ++ now rewrite IH.
           ++ now rewrite IHd.
      * rewrite !(replace_pair_skip ESC ESC_END [END] c) by assumption.
        now rewrite IHd.
Qed.

Lemma replace_pair_snoc (a b : byte) (new : bytes) (x : bytes) (e : byte) :
  (e =? b) = false ->
  replace [a; b] new (x ++ [e]) = replace [a; b] new x ++ [e].
Proof.
  intros He.
  induction x as [| c | c d x IH IHd] using list_pair_ind.
  - cbn [app]. now rewrite replace_pair_one.
  - cbn [app]. rewrite replace_pair_cons, !replace_pair_one.
    rewrite (Z.eqb_sym b e), He, andb_false_r. reflexivity.
  - cbn [app] in *. rewrite !replace_pair_cons.
    destruct ((a =? c) && (b =? d)).
    + now rewrite IH, app_assoc.
    + now rewrite IHd.
Qed.

Lemma replace_pair_absent (a b : byte) (new : bytes) (x : bytes) :
  has_adjacent a b x = false -> replace [a; b] new x = x.
Proof.
  induction x as [| c | c d x IH IHd] using list_pair_ind; intros H.
  - reflexivity.
  - apply replace_pair_one.
  - cbn [has_adjacent] in H. apply orb_false_iff in H as [H1 H2].
    rewrite replace_pair_cons.
    rewrite (Z.eqb_sym a c), (Z.eqb_sym b d), H1.
    now rewrite IHd.
Qed.

Lemma lstrip_app (cs y t : bytes) :
  lstrip cs (y ++ t) =
  if forallb (fun c => mem c cs) y then lstrip cs t else lstrip cs y ++ t.
Proof.
  induction y as [|c y IH]; [reflexivity|].
  cbn [app lstrip forallb]. destruct (mem c cs); [exact IH | reflexivity].
Qed.

Lemma lstrip_all (cs y : bytes) :
  forallb (fun c => mem c cs) y = true -> lstrip cs y = [].
Proof.
  induction y as [|c y IH]; [reflexivity|].
  cbn [lstrip forallb]. intros H. apply andb_true_iff in H as [H1 H2].
  now rewrite H1, IH.
Qed.

(** A trailing [END] makes no difference to [strip]. *)
Lemma strip_snoc_END (y : bytes) :
  strip [END] (y ++ [END]) = strip [END] y.
Proof.
  unfold strip, rstrip. rewrite lstrip_app.
  destruct (forallb (fun c => mem c [END]) y) eqn:E.
  - rewrite (lstrip_all _ _ E). reflexivity.
  - rewrite rev_app_distr. reflexivity.
Qed.

Lemma lstrip_head (x : bytes) :
  hd_error x <> Some END -> lstrip [END] x = x.
Proof.
  destruct x as [|c x]; [reflexivity|].
  cbn [hd_error lstrip mem existsb]. intros H.
  destruct (c =? END) eqn:E; [|reflexivity].
  apply Z.eqb_eq in E. congruence.
Qed.

Lemma strip_clean (x : bytes) :
  hd_error x <> Some END -> hd_error (rev x) <> Some END ->
  strip [END] x = x.
Proof.
  intros H1 H2. unfold strip, rstrip.
  rewrite (lstrip_head x H1), (lstrip_head (rev x) H2).
  apply rev_involutive.
Qed.

(** What [decode] makes of an encoded frame: the data with every
    [ESC ESC_END] pair of its own turned into [END], and then stripped of
    the [END] bytes at both of its ends. *)
Lemma decode_encode (x : bytes) :
  decode (encode x) = strip [END] (replace [ESC; ESC_END] [END] x).
Proof.
  rewrite encode_escape. unfold decode, ESC_b, ESC_END_b, ESC_ESC_b, END_b.
  cbn [app]. rewrite unescape_esc.
  rewrite replace_pair_one, unescape_end.
  rewrite replace_pair_snoc by reflexivity.
  apply strip_snoc_END.
Qed.

(** The round trip on data that has no [ESC ESC_END] pair and no [END] at
    either end. *)
Lemma decode_encode_clean (x : bytes) :
  has_adjacent ESC ESC_END x = false ->
  hd_error x <> Some END -> hd_error (rev x) <> Some END ->
  decode (encode x) = x.
Proof.
  intros Hp Hh Ht.
  rewrite decode_encode, (replace_pair_absent _ _ _ _ Hp).
  now apply strip_clean.
Qed.

Lemma decode_encode_clean_example :
  decode (encode [0x01; ESC; ESC_ESC; END; ESC_END; 0x7B]) =
  [0x01; ESC; ESC_ESC; END; ESC_END; 0x7B].
Proof.
  apply decode_encode_clean; [reflexivity | discriminate | discriminate].
Defined.

(** C1 (the round trip [decode (encode x) = x], also for data with an
    [END] at an end or with the bytes [0xDB 0xDC]): evaluation of the code
    on such data.  An [END] byte at either end of the data is stripped, and
    the data bytes [0xDB 0xDC] come back as one [END]; here that [END] is
    then stripped as well. *)
Theorem decode_encode_breaks :
  decode (encode [0x0A]) = []
  /\ decode (encode [0x0A; 0x01]) = [0x01]
  /\ decode (encode [0x01; 0x0A]) = [0x01]
  /\ decode (encode [0xDB; 0xDC]) = []
  /\ decode (encode [0x01; 0xDB; 0xDC; 0x02]) = [0x01; 0x0A; 0x02].
Proof. repeat split; reflexivity. Qed.

End SlipFacts.

Module SlipSerialReaderFacts.
Import PyBytes Slip SlipAux SlipSerialReader.

Lemma contains_cons (c x : byte) (s : bytes) :
  contains c (x :: s) = (x =? c) || contains c s.
Proof. unfold contains. cbn [existsb]. now rewrite Z.eqb_sym. Qed.

Lemma contains_app (c : byte) (s t : bytes) :
  contains c (s ++ t) = contains c s || contains c t.
Proof. apply existsb_app. Qed.

(** One round of the loop of [data_received], read off [split_frames]. *)
Lemma split_frames_step (acc b : bytes) :
  split_frames acc b =
  if contains END b then
    match index END b with
    | Some i =>
        let '(frames, rest) := split_frames [] (slice_from (i + 1) b) in
        ((acc ++ slice_to (i + 1) b) :: frames, rest)
    | None => ([], acc ++ b)
    end
  else ([], acc ++ b).
Proof.
  unfold slice_from, slice_to.
  revert acc. induction b as [|c b IH]; intros acc.
  - cbn. now rewrite app_nil_r.
  - rewrite contains_cons. cbn [split_frames index].
    destruct (c =? END) eqn:E; cbn [orb].
    + reflexivity.
    + rewrite IH. destruct (contains END b).
      * destruct (index END b) as [i|]; cbn [option_map].
        -- cbn [Nat.add firstn skipn].
           destruct (split_frames [] (skipn (i + 1) b)) as [frames rest].
           now rewrite <- app_assoc.
        -- now rewrite <- app_assoc.
      * now rewrite <- app_assoc.
Qed.

Lemma index_bound (c : byte) (b : bytes) (i : nat) :
  index c b = Some i -> (i < List.length b)%nat.
Proof.
  revert i. induction b as [|x b IH]; intros i; cbn [index].
  - discriminate.
  - destruct (x =? c).
    + intros [= <-]. cbn. lia.
    + destruct (index c b) as [j|]; cbn [option_map]; [|discriminate].
      intros [= <-]. specialize (IH j eq_refl). cbn. lia.
Qed.

Lemma contains_index (c : byte) (b : bytes) :
  contains c b = true -> exists i, index c b = Some i.
Proof.
  induction b as [|x b IH]; [discriminate|].
  rewrite contains_cons. cbn [index]. destruct (x =? c); cbn [orb].
  - eauto.
  - intros H. destruct (IH H) as [i ->]. cbn. eauto.
Qed.

(** The loop of [data_received] ends within the fuel it is given, and
    computes [split_frames]. *)
Lemma extract_loop_split (fuel : nat) (b : bytes) :
  (List.length b < fuel)%nat ->
  extract_loop fuel b = Some (split_frames [] b).
Proof.
  revert b. induction fuel as [|fuel IH]; intros b Hlen; [lia|].
  cbn [extract_loop]. rewrite (split_frames_step [] b).
  destruct (contains END b) eqn:Hc; [|reflexivity].
  destruct (contains_index _ _ Hc) as [i Hi]. rewrite Hi.
  pose proof (index_bound _ _ _ Hi) as Hb.
  rewrite IH.
  - destruct (split_frames [] (slice_from (i + 1) b)); reflexivity.
  - unfold slice_from. rewrite length_skipn. lia.
Qed.

Lemma data_received_split (self : t) (data : bytes) :
  data_received self data =
  Some (fst (split_frames [] (buffer self ++ data)),
        mk (snd (split_frames [] (buffer self ++ data)))).
Proof.
  unfold data_received. rewrite extract_loop_split by lia.
  destruct (split_frames [] (buffer self ++ data)); reflexivity.
Qed.

Lemma split_frames_app (acc u v : bytes) :
  split_frames acc (u ++ v) =
  let '(frames, rest) := split_frames acc u in
  let '(frames', rest') := split_frames rest v in
  (frames ++ frames', rest').
Proof.
  revert acc. induction u as [|c u IH]; intros acc; cbn [app split_frames].
  - destruct (split_frames acc v); reflexivity.
  - destruct (c =? END).
    + rewrite IH. destruct (split_frames [] u) as [f r].
      destruct (split_frames r v); reflexivity.
    + apply IH.
Qed.

Lemma split_frames_rest (acc u : bytes) :
  contains END acc = false ->
  contains END (snd (split_frames acc u)) = false.
Proof.
  revert acc. induction u as [|c u IH]; intros acc Hacc; cbn [split_frames].
  - exact Hacc.
  - destruct (c =? END) eqn:E.
    + specialize (IH [] eq_refl).
      destruct (split_frames [] u); exact IH.
    + apply IH. rewrite contains_app, Hacc, contains_cons, E. reflexivity.
Qed.

Lemma split_frames_clean (acc b : bytes) :
  contains END b = false -> split_frames acc b = ([], acc ++ b).
Proof. intros H. now rewrite split_frames_step, H. Qed.

(** Carrying the rest over to the next call is the same as cutting the
    joined stream. *)
Lemma split_frames_resume (u v : bytes) :
  split_frames [] (u ++ v) =
  let '(frames, rest) := split_frames [] u in
  let '(frames', rest') := split_frames [] (rest ++ v) in
  (frames ++ frames', rest').
Proof.
  rewrite split_frames_app.
  pose proof (split_frames_rest [] u eq_refl) as Hr.
  destruct (split_frames [] u) as [f r]. cbn [snd] in Hr.
  rewrite (split_frames_app [] r v), (split_frames_clean [] r Hr).
  cbn [app]. destruct (split_frames r v); reflexivity.
Qed.

Lemma feed_chunks_split (chunks : list bytes) (self : t) :
  contains END (buffer self) = false ->
  feed_chunks self chunks =
  Some (fst (split_frames [] (buffer self ++ concat chunks)),
        mk (snd (split_frames [] (buffer self ++ concat chunks)))).
Proof.
  revert self. induction chunks as [|c chunks IH]; intros self Hinv.
  - cbn [feed_chunks concat]. rewrite app_nil_r.
    rewrite (split_frames_clean [] _ Hinv). destruct self; reflexivity.
  - cbn [feed_chunks concat]. rewrite data_received_split.
    rewrite IH by (cbn [buffer]; now apply split_frames_rest).
    cbn [buffer]. rewrite app_assoc, (split_frames_resume (buffer self ++ c)).
    destruct (split_frames [] (buffer self ++ c)) as [f r]. cbn [fst snd].
    destruct (split_frames [] (r ++ concat chunks)); reflexivity.
Qed.

(** Every frame cut off is a run of bytes other than [END] closed by one
    [END]; the frames and the rest, joined, are the stream. *)
Lemma split_frames_shape (s acc : bytes) :
  contains END acc = false ->
  Forall is_raw_frame (fst (split_frames acc s))
  /\ concat (fst (split_frames acc s)) ++ snd (split_frames acc s) = acc ++ s.
Proof.
  revert acc. induction s as [|c s IH]; intros acc Hacc; cbn [split_frames].
  - cbn. now rewrite app_nil_r.
  - destruct (c =? END) eqn:E.
    + destruct (IH [] eq_refl) as [IH1 IH2].
      destruct (split_frames [] s) as [f r]. cbn [fst snd concat] in *.
      apply Z.eqb_eq in E; subst c. split.
      * constructor; [|exact IH1]. exists acc. now split.
      * rewrite <- !app_assoc. cbn [app] in *. now rewrite IH2.
    + destruct (IH (acc ++ [c])) as [IH1 IH2].
      { rewrite contains_app, Hacc, contains_cons, E. reflexivity. }
      split; [exact IH1|]. rewrite IH2, <- app_assoc. reflexivity.
Qed.

(** C8: whatever the chunks, [data_received] called once per chunk creates
    the same tasks, in the same order, and leaves the same buffer as one
    call on the joined stream; so the decoded frames that are dispatched
    are the same too.  The frames are cut after each [END] of the stream
    and nowhere else.  The buffer a reader starts from holds no [END], as
    the empty buffer of [__init__] and the buffer any call leaves. *)
Theorem data_received_chunking (self : t) (chunks : list bytes) :
  contains END (buffer self) = false ->
  exists tasks self',
    feed_chunks self chunks = Some (tasks, self')
    /\ data_received self (concat chunks) = Some (tasks, self')
    /\ option_map (fun r => dispatched (fst r)) (feed_chunks self chunks)
       = option_map (fun r => dispatched (fst r))
           (data_received self (concat chunks))
    /\ Forall is_raw_frame tasks
    /\ concat tasks ++ buffer self' = buffer self ++ concat chunks
    /\ contains END (buffer self') = false.
Proof.
  intros Hinv.
  exists (fst (split_frames [] (buffer self ++ concat chunks))),
         (mk (snd (split_frames [] (buffer self ++ concat chunks)))).
  rewrite (feed_chunks_split chunks self Hinv), data_received_split.
  destruct (split_frames_shape (buffer self ++ concat chunks) [] eq_refl)
    as [H1 H2].
  repeat split; try assumption.
  cbn [buffer]. now apply split_frames_rest.
Qed.

Lemma data_received_chunking_witness :
  exists tasks self',
    feed_chunks init [[0x12; 0x01]; [0x0A; 0x0A; 0x34]; []; [0x0A; 0x56]]
    = Some (tasks, self')
    /\ data_received init
         (concat [[0x12; 0x01]; [0x0A; 0x0A; 0x34]; []; [0x0A; 0x56]])
       = Some (tasks, self')
    /\ option_map (fun r => dispatched (fst r))
         (feed_chunks init [[0x12; 0x01]; [0x0A; 0x0A; 0x34]; []; [0x0A; 0x56]])
       = option_map (fun r => dispatched (fst r))
           (data_received init
              (concat [[0x12; 0x01]; [0x0A; 0x0A; 0x34]; []; [0x0A; 0x56]]))
    /\ Forall is_raw_frame tasks
    /\ concat tasks ++ buffer self'
       = buffer init
         ++ concat [[0x12; 0x01]; [0x0A; 0x0A; 0x34]; []; [0x0A; 0x56]]
    /\ contains END (buffer self') = false.
Proof.
  apply (data_received_chunking init
           [[0x12; 0x01]; [0x0A; 0x0A; 0x34]; []; [0x0A; 0x56]]).
  reflexivity.
Defined.

End SlipSerialReaderFacts.

Module VarintFacts.
Import PyBytes ProtobufDelimitedBuffer.

Lemma land_7F_small (n : Z) : 0 <= n < 0x80 -> Z.land n 0x7F = n.
Proof.
  intros H. change 0x7F with (Z.ones 7).
  rewrite Z.land_ones by lia. apply Z.mod_small. exact H.
Qed.

Lemma land_80_small (n : Z) : 0 <= n < 0x80 -> Z.land n 0x80 = 0.
Proof.
  intros H. apply Z.bits_inj'. intros k Hk.
  rewrite Z.land_spec, Z.bits_0.
  destruct (Z.eq_dec k 7) as [->|Hne].
  - destruct (Z.eq_dec n 0) as [->|Hn]; [reflexivity|].
    rewrite (Z.bits_above_log2 n 7); [reflexivity | lia |].
    apply Z.log2_lt_pow2; lia.
  - change 0x80 with (2 ^ 7). rewrite (Z.pow2_bits_false 7 k) by lia.
    apply andb_false_r.
Qed.

Lemma continuation_low (n : Z) :
  Z.land (Z.lor (Z.land n 0x7F) 0x80) 0x7F = Z.land n 0x7F.
Proof.
  rewrite Z.land_lor_distr_l, <- Z.land_assoc.
  change (Z.land 0x7F 0x7F) with 0x7F. change (Z.land 0x80 0x7F) with 0.
  apply Z.lor_0_r.
Qed.

Lemma continuation_high (n : Z) :
  Z.land (Z.lor (Z.land n 0x7F) 0x80) 0x80 = 0x80.
Proof.
  rewrite Z.land_lor_distr_l, <- Z.land_assoc.
  change (Z.land 0x7F 0x80) with 0. change (Z.land 0x80 0x80) with 0x80.
  now rewrite Z.land_0_r.
Qed.

(** A number is its low 7 bits joined with the rest moved up again. *)
Lemma split_low7 (n : Z) :
  Z.lor (Z.land n 0x7F) (Z.shiftl (Z.shiftr n 7) 7) = n.
Proof.
  apply Z.bits_inj'. intros k Hk.
  rewrite Z.lor_spec, Z.land_spec. change 0x7F with (Z.ones 7).
  destruct (Z.lt_ge_cases k 7) as [Hlt|Hge].
  - rewrite Z.ones_spec_low by lia.
    rewrite Z.shiftl_spec_low by lia.
    now rewrite andb_true_r, orb_false_r.
  - rewrite Z.ones_spec_high by lia.
    rewrite Z.shiftl_spec by lia. rewrite Z.shiftr_spec by lia.
    rewrite andb_false_r. cbn [orb]. f_equal. lia.
Qed.

Lemma read_encode_fuel (fuel : nat) :
  forall (n : Z) (rest : bytes) (acc shift : Z) (i : nat),
    0 <= n < 2 ^ (7 * (Z.of_nat fuel + 1)) -> 0 <= shift ->
    read_varint_from (encode_varint_fuel fuel n ++ rest) acc shift i =
    Some (Z.lor acc (Z.shiftl n shift),
          (i + List.length (encode_varint_fuel fuel n))%nat).
Proof.
  induction fuel as [|fuel IH]; intros n rest acc shift i Hn Hs.
  - cbn [encode_varint_fuel]. change (2 ^ (7 * (Z.of_nat 0 + 1))) with 0x80 in Hn.
    destruct (n <? 0x80) eqn:E; [|apply Z.ltb_ge in E; lia].
    cbn [app read_varint_from List.length].
    rewrite land_7F_small, land_80_small by lia. reflexivity.
  - cbn [encode_varint_fuel]. destruct (n <? 0x80) eqn:E.
    + apply Z.ltb_lt in E. cbn [app read_varint_from List.length].
      rewrite land_7F_small, land_80_small by lia. reflexivity.
    + apply Z.ltb_ge in E. cbn [app read_varint_from List.length].
      rewrite continuation_low, continuation_high. cbn [Z.eqb].
      rewrite IH; [| |lia].
      * f_equal. f_equal; [|lia].
        rewrite <- Z.lor_assoc. f_equal. rewrite (Z.add_comm shift 7).
        rewrite <- (Z.shiftl_shiftl _ 7 shift) by lia.
        rewrite <- Z.shiftl_lor. now rewrite split_low7.
      * split; [apply Z.shiftr_nonneg; lia|].
        rewrite Z.shiftr_div_pow2 by lia.
        apply Z.div_lt_upper_bound; [lia|].
        rewrite <- Z.pow_add_r by lia.
        replace (7 + 7 * (Z.of_nat fuel + 1)) with (7 * (Z.of_nat (S fuel) + 1)) by lia.
        lia.
Qed.

Lemma encode_varint_fuel_ok (n : Z) :
  0 <= n -> 0 <= n < 2 ^ (7 * (Z.of_nat (Z.to_nat (Z.log2 n)) + 1)).
Proof.
  intros Hn. split; [exact Hn|].
  rewrite Z2Nat.id by apply Z.log2_nonneg.
  destruct (Z.eq_dec n 0) as [->|Hne].
  - cbn. lia.
  - pose proof (Z.log2_spec n ltac:(lia)) as [_ Hu].
    pose proof (Z.log2_nonneg n).
    eapply Z.lt_le_trans; [exact Hu|].
    apply Z.pow_le_mono_r; lia.
Qed.

(** [_read_varint] reads back what [encode_varint] wrote, whatever
    follows. *)
Lemma read_encode_varint (n : Z) (rest : bytes) :
  0 <= n ->
  _read_varint (encode_varint n ++ rest) =
  Some (n, List.length (encode_varint n)).
Proof.
  intros Hn. unfold _read_varint, encode_varint.
  rewrite read_encode_fuel; [| now apply encode_varint_fuel_ok | lia].
  now rewrite Z.shiftl_0_r, Z.lor_0_l.
Qed.

End VarintFacts.

Module DelimitedFacts.
Import PyBytes ProtobufDelimitedBuffer DelimitedAux VarintFacts.

Lemma read_varint_from_bound (buf : bytes) :
  forall acc shift i v k,
    read_varint_from buf acc shift i = Some (v, k) ->
    (i < k <= i + List.length buf)%nat.
Proof.
  induction buf as [|x buf IH]; intros acc shift i v k; cbn [read_varint_from].
  - discriminate.
  - destruct (Z.land x 0x80 =? 0).
    + intros [= _ <-]. cbn [List.length]. lia.
    + intros H. apply IH in H. cbn [List.length]. lia.
Qed.

Lemma read_varint_from_nonneg (buf : bytes) :
  forall acc shift i v k,
    0 <= acc -> 0 <= shift ->
    read_varint_from buf acc shift i = Some (v, k) -> 0 <= v.
Proof.
  induction buf as [|x buf IH]; intros acc shift i v k Ha Hs;
    cbn [read_varint_from].
  - discriminate.
  - assert (0 <= Z.lor acc (Z.shiftl (Z.land x 0x7F) shift)) as Hr.
    { apply Z.lor_nonneg. split; [exact Ha|].
      apply Z.shiftl_nonneg. apply Z.land_nonneg. right. lia. }
    destruct (Z.land x 0x80 =? 0).
    + intros [= <- _]. exact Hr.
    + apply IH; [exact Hr | lia].
Qed.

(** A length prefix that is complete stays what it is when more bytes
    arrive. *)
Lemma read_varint_from_app (u v : bytes) :
  forall acc shift i r,
    read_varint_from u acc shift i = Some r ->
    read_varint_from (u ++ v) acc shift i = Some r.
Proof.
  induction u as [|x u IH]; intros acc shift i r; cbn [app read_varint_from].
  - discriminate.
  - destruct (Z.land x 0x80 =? 0); [trivial | apply IH].
Qed.

(** What a successful [_extract_next_message] has seen. *)
Lemma extract_Some (buf msg remaining : bytes) :
  _extract_next_message buf = (Some msg, remaining) ->
  exists size size_len,
    _read_varint buf = Some (size, size_len)
    /\ (0 < size_len)%nat
    /\ 0 <= size
    /\ Z.of_nat size_len + size <= Z.of_nat (List.length buf)
    /\ msg = slice_from size_len (slice_to (Z.to_nat (Z.of_nat size_len + size)) buf)
    /\ remaining = slice_from (Z.to_nat (Z.of_nat size_len + size)) buf.
Proof.
  unfold _extract_next_message.
  destruct (_read_varint buf) as [[size size_len]|] eqn:Hv; [|discriminate].
  destruct (Z.of_nat (List.length buf) <? Z.of_nat size_len + size) eqn:Hl;
    [discriminate|].
  intros [= <- <-]. apply Z.ltb_ge in Hl.
  exists size, size_len. unfold _read_varint in Hv.
  pose proof (read_varint_from_bound _ _ _ _ _ _ Hv).
  pose proof (read_varint_from_nonneg _ _ _ _ _ _ (Z.le_refl 0) (Z.le_refl 0) Hv).
  repeat split; try reflexivity; try assumption; lia.
Qed.

Lemma extract_None (buf remaining : bytes) :
  _extract_next_message buf = (None, remaining) -> remaining = buf.
Proof.
  unfold _extract_next_message.
  destruct (_read_varint buf) as [[size size_len]|]; [|now intros [= <-]].
  destruct (Z.of_nat (List.length buf) <? Z.of_nat size_len + size);
    [now intros [= <-] | discriminate].
Qed.

Lemma extract_shorter (buf msg remaining : bytes) :
  _extract_next_message buf = (Some msg, remaining) ->
  (List.length remaining < List.length buf)%nat.
Proof.
  intros H. apply extract_Some in H
    as (size & size_len & _ & Hpos & Hsz & Hlen & _ & ->).
  unfold slice_from. rewrite length_skipn. lia.
Qed.

(** A message that is complete is extracted all the same when more bytes
    follow it. *)
Lemma extract_app (u v msg remaining : bytes) :
  _extract_next_message u = (Some msg, remaining) ->
  _extract_next_message (u ++ v) = (Some msg, remaining ++ v).
Proof.
  intros H. apply extract_Some in H
    as (size & size_len & Hv & Hpos & Hsz & Hlen & -> & ->).
  unfold _extract_next_message, _read_varint in *.
  rewrite (read_varint_from_app u v _ _ _ _ Hv).
  rewrite length_app.
  destruct (Z.of_nat (List.length u + List.length v)
            <? Z.of_nat size_len + size) eqn:E;
    [apply Z.ltb_lt in E; lia|].
  unfold slice_from, slice_to.
  set (e := Z.to_nat (Z.of_nat size_len + size)).
  assert (e <= List.length u)%nat as He by (unfold e; lia).
  rewrite firstn_app, (skipn_app e).
  replace (e - List.length u)%nat with 0%nat by lia.
  cbn [firstn skipn]. now rewrite app_nil_r.
Qed.

Lemma feed_loop_fuel (n : nat) :
  forall fuel fuel' b,
    (List.length b < n)%nat -> (n <= fuel)%nat -> (n <= fuel')%nat ->
    feed_loop fuel b = feed_loop fuel' b /\ feed_loop fuel b <> None.
Proof.
  induction n as [|n IH]; intros fuel fuel' b Hb Hf Hf'; [lia|].
  destruct fuel as [|fuel]; [lia|]. destruct fuel' as [|fuel']; [lia|].
  cbn [feed_loop].
  destruct (_extract_next_message b) as [[msg|] remaining] eqn:E.
  - pose proof (extract_shorter _ _ _ E) as Hs.
    destruct (IH fuel fuel' remaining) as [Heq Hne]; try lia.
    rewrite <- Heq. destruct (feed_loop fuel remaining) as [[ms r]|].
    + split; [reflexivity | discriminate].
    + contradiction.
  - split; [reflexivity | discriminate].
Qed.

(** The loop of [feed] ends within the fuel it is given. *)
Lemma feed_loop_drain (fuel : nat) (b : bytes) :
  (List.length b < fuel)%nat -> feed_loop fuel b = Some (drain b).
Proof.
  intros H. unfold drain.
  destruct (feed_loop_fuel (S (List.length b)) fuel (S (List.length b)) b)
    as [Heq Hne]; try lia.
  rewrite <- Heq. destruct (feed_loop fuel b); [reflexivity | contradiction].
Qed.

Lemma drain_unfold (b : bytes) :
  drain b =
  match _extract_next_message b with
  | (None, _) => ([], b)
  | (Some msg, remaining) =>
      let '(msgs, rest) := drain remaining in (msg :: msgs, rest)
  end.
Proof.
  unfold drain at 1. cbn [feed_loop].
  destruct (_extract_next_message b) as [[msg|] remaining] eqn:E;
    [|reflexivity].
  rewrite feed_loop_drain by (apply extract_shorter in E; lia).
  destruct (drain remaining); reflexivity.
Qed.

Lemma feed_drain (self : t) (data : bytes) :
  feed self data =
  Some (fst (drain (buffer self ++ data)),
        mk (snd (drain (buffer self ++ data)))).
Proof.
  unfold feed. rewrite feed_loop_drain by lia.
  destruct (drain (buffer self ++ data)); reflexivity.
Qed.

(** Draining a buffer, appending, and draining again takes off the same
    messages as draining the whole. *)
Lemma drain_app (n : nat) :
  forall u v,
    (List.length u < n)%nat ->
    drain (u ++ v) =
    let '(msgs, rest) := drain u in
    let '(msgs', rest') := drain (rest ++ v) in
    (msgs ++ msgs', rest').
Proof.
  induction n as [|n IH]; intros u v Hn; [lia|].
  rewrite (drain_unfold u).
  destruct (_extract_next_message u) as [[msg|] remaining] eqn:E.
  - rewrite (drain_unfold (u ++ v)), (extract_app _ v _ _ E).
    rewrite IH by (apply extract_shorter in E; lia).
    destruct (drain remaining) as [ms r].
    destruct (drain (r ++ v)); reflexivity.
  - destruct (drain (u ++ v)); reflexivity.
Qed.

Lemma drain_rest (n : nat) :
  forall b, (List.length b < n)%nat ->
    drain (snd (drain b)) = ([], snd (drain b)).
Proof.
  induction n as [|n IH]; intros b Hn; [lia|].
  rewrite (drain_unfold b).
  destruct (_extract_next_message b) as [[msg|] remaining] eqn:E.
  - specialize (IH remaining ltac:(apply extract_shorter in E; lia)).
    destruct (drain remaining); exact IH.
  - cbn [snd]. rewrite drain_unfold, E. reflexivity.
Qed.

Lemma feed_chunks_drain (chunks : list bytes) (self : t) :
  drain (buffer self) = ([], buffer self) ->
  feed_chunks self chunks =
  Some (fst (drain (buffer self ++ concat chunks)),
        mk (snd (drain (buffer self ++ concat chunks)))).
Proof.
  revert self. induction chunks as [|c chunks IH]; intros self Hinv.
  - cbn [feed_chunks concat]. rewrite app_nil_r, Hinv.
    destruct self; reflexivity.
  - cbn [feed_chunks concat]. rewrite feed_drain.
    rewrite IH
      by (cbn [buffer]; apply (drain_rest (S (List.length (buffer self ++ c)))); lia).
    cbn [buffer]. rewrite app_assoc.
    rewrite (drain_app (S (List.length (buffer self ++ c))) (buffer self ++ c))
      by lia.
    destruct (drain (buffer self ++ c)) as [ms r]. cbn [fst snd].
    destruct (drain (r ++ concat chunks)); reflexivity.
Qed.

Lemma encode_varint_nonempty (n : Z) :
  (0 < List.length (encode_varint n))%nat.
Proof.
  unfold encode_varint.
  destruct (Z.to_nat (Z.log2 n)); cbn [encode_varint_fuel];
    destruct (n <? 0x80); cbn [List.length]; lia.
Qed.

(** A whole message at the head of the buffer is taken off as it was
    sent. *)
Lemma extract_delimited (payload rest : bytes) :
  _extract_next_message (delimited payload ++ rest) = (Some payload, rest).
Proof.
  unfold _extract_next_message, delimited. rewrite <- app_assoc.
  rewrite read_encode_varint by lia.
  set (enc := encode_varint (Z.of_nat (List.length payload))).
  rewrite !length_app.
  destruct (Z.of_nat (List.length enc + (List.length payload + List.length rest))
            <? Z.of_nat (List.length enc) + Z.of_nat (List.length payload)) eqn:E;
    [apply Z.ltb_lt in E; lia|].
  replace (Z.to_nat (Z.of_nat (List.length enc) + Z.of_nat (List.length payload)))
    with (List.length enc + List.length payload)%nat by lia.
  unfold slice_from, slice_to. f_equal.
  - f_equal. rewrite firstn_app_2.
    rewrite skipn_app, skipn_all, Nat.sub_diag. cbn [app skipn].
    rewrite firstn_app, firstn_all, Nat.sub_diag. cbn [firstn].
    now rewrite app_nil_r.
  - rewrite app_assoc, <- length_app.
    rewrite skipn_app, skipn_all, Nat.sub_diag. reflexivity.
Qed.

Lemma drain_delimited (payloads : list bytes) :
  drain (flat_map delimited payloads) = (payloads, []).
Proof.
  induction payloads as [|p payloads IH].
  - reflexivity.
  - cbn [flat_map]. rewrite drain_unfold, extract_delimited, IH. reflexivity.
Qed.


(** A length prefix cut short does not read: every byte before its last
    has the continuation bit. *)
Lemma read_varint_cut (fuel : nat) :
  forall n k acc shift i,
    (k < List.length (encode_varint_fuel fuel n))%nat ->
    read_varint_from (firstn k (encode_varint_fuel fuel n)) acc shift i = None.
Proof.
  induction fuel as [|fuel IH]; intros n k acc shift i;
    cbn [encode_varint_fuel]; destruct (n <? 0x80);
    cbn [List.length]; intros Hk.
  1-3: replace k with 0%nat by lia; reflexivity.
  destruct k as [|k]; [reflexivity|].
  cbn [firstn read_varint_from]. rewrite continuation_high. cbn [Z.eqb].
  apply IH. lia.
Qed.

(** A message of which only a part has arrived is left in the buffer. *)
Lemma extract_incomplete (payload : bytes) (k : nat) :
  (k < List.length (delimited payload))%nat ->
  _extract_next_message (firstn k (delimited payload)) =
  (None, firstn k (delimited payload)).
Proof.
  unfold delimited. rewrite length_app. intros Hk.
  set (enc := encode_varint (Z.of_nat (List.length payload))) in *.
  unfold _extract_next_message.
  destruct (Nat.lt_ge_cases k (List.length enc)) as [Hlt|Hge].
  - rewrite firstn_app. replace (k - List.length enc)%nat with 0%nat by lia.
    cbn [firstn]. rewrite app_nil_r.
    unfold _read_varint, enc, encode_varint.
    now rewrite read_varint_cut.
  - replace k with (List.length enc + (k - List.length enc))%nat at 1 by lia.
    rewrite firstn_app_2. unfold enc at 1.
    rewrite read_encode_varint by lia. fold enc.
    rewrite length_firstn.
    destruct (Z.of_nat (Nat.min k (List.length (enc ++ payload)))
              <? Z.of_nat (List.length enc) + Z.of_nat (List.length payload))
      eqn:E.
    + now replace (List.length enc + (k - List.length enc))%nat with k by lia.
    + apply Z.ltb_ge in E. rewrite length_app in E. lia.
Qed.

(** The bytes in front of an extracted message are a complete length
    prefix, and the message has the length it declares. *)
Lemma extract_complete (buf msg remaining : bytes) :
  _extract_next_message buf = (Some msg, remaining) ->
  exists size size_len,
    _read_varint buf = Some (size, size_len)
    /\ Z.of_nat (List.length msg) = size
    /\ buf = firstn size_len buf ++ msg ++ remaining.
Proof.
  intros H. apply extract_Some in H
    as (size & size_len & Hv & Hpos & Hsz & Hlen & -> & ->).
  exists size, size_len. unfold slice_from, slice_to.
  set (e := Z.to_nat (Z.of_nat size_len + size)).
  assert (size_len <= e <= List.length buf)%nat as He by (unfold e; lia).
  split; [exact Hv|]. split.
  - rewrite length_skipn, length_firstn. lia.
  - rewrite <- (firstn_skipn e buf) at 1.
    rewrite app_assoc. f_equal.
    rewrite <- (firstn_skipn size_len (firstn e buf)) at 1.
    f_equal. rewrite firstn_firstn. f_equal. lia.
Qed.

(** C6: the consumer gets exactly the payloads that were sent, each once
    and in the order sent, however the stream of length-prefixed messages
    is cut into chunks, and nothing is left in the buffer.  A message is
    handed over only when the buffer starts with a complete length prefix
    followed by as many bytes as it declares; a message of which only a
    part has arrived makes [feed] return without calling the consumer and
    with the bytes kept. *)
Theorem feed_reassembles (payloads chunks : list bytes) :
  concat chunks = flat_map delimited payloads ->
  feed_chunks init chunks = Some (payloads, init)
  /\ (forall buf msg remaining,
        _extract_next_message buf = (Some msg, remaining) ->
        exists size size_len,
          _read_varint buf = Some (size, size_len)
          /\ Z.of_nat (List.length msg) = size
          /\ buf = firstn size_len buf ++ msg ++ remaining)
  /\ (forall payload k,
        (k < List.length (delimited payload))%nat ->
        feed init (firstn k (delimited payload)) =
        Some ([], mk (firstn k (delimited payload)))).
Proof.
  intros Hcut. split; [|split].
  - rewrite feed_chunks_drain by reflexivity.
    cbn [buffer init app]. rewrite Hcut, drain_delimited. reflexivity.
  - exact extract_complete.
  - intros payload k Hk. rewrite feed_drain. cbn [buffer init app].
    rewrite drain_unfold, (extract_incomplete payload k Hk). reflexivity.
Qed.

Lemma feed_reassembles_witness :
  feed_chunks init [[3; 1]; [2; 3; 0; 2]; []; [5; 6]]
  = Some ([[1; 2; 3]; []; [5; 6]], init).
Proof.
  apply (feed_reassembles [[1; 2; 3]; []; [5; 6]]
           [[3; 1]; [2; 3; 0; 2]; []; [5; 6]]).
  reflexivity.
Defined.

(** A payload of 300 bytes has a two-byte prefix, and comes through when
    the stream is cut inside the prefix. *)
Example feed_two_byte_prefix :
  feed_chunks init [[0xAC]; 0x02 :: repeat 7 300] =
  Some ([repeat 7 300], init).
Proof. vm_compute. reflexivity. Qed.

End DelimitedFacts.

Module VerifyFacts.
Import SettingsHandler VerifyAux.

Lemma verify_loop_result (received : dict) (items : dict) (b : bool) :
  fst (verify_loop items received b) =
  b && forallb (fun item => negb (item_fails received item)) items.
Proof.
  revert b. induction items as [|[key value] items IH]; intros b.
  - cbn. now rewrite andb_true_r.
  - cbn [verify_loop forallb item_fails].
    destruct (is_excluded key); cbn [negb andb].
    + apply IH.
    + destruct (PyDict.get key received) as [rv|].
      * destruct (PyValue.eqb rv value); cbn [negb].
        -- specialize (IH b). destruct (verify_loop items received b).
           exact IH.
        -- specialize (IH false). destruct (verify_loop items received false).
           cbn [fst] in *. rewrite IH. now rewrite andb_false_r.
      * specialize (IH false). destruct (verify_loop items received false).
        cbn [fst] in *. rewrite IH. now rewrite andb_false_r.
Qed.

(** One error record per failing item, whatever came before it: the loop
    does not stop at the first one. *)
Lemma verify_loop_errors (received : dict) (items : dict) (b : bool) :
  List.length (filter is_error (snd (verify_loop items received b))) =
  List.length (filter (item_fails received) items).
Proof.
  revert b. induction items as [|[key value] items IH]; intros b.
  - reflexivity.
  - cbn [verify_loop filter item_fails].
    destruct (is_excluded key); cbn [negb andb].
    + apply IH.
    + destruct (PyDict.get key received) as [rv|].
      * destruct (PyValue.eqb rv value); cbn [negb].
        -- specialize (IH b). destruct (verify_loop items received b).
           exact IH.
        -- specialize (IH false). destruct (verify_loop items received false).
           cbn [snd filter is_error List.length] in *. now rewrite IH.
      * specialize (IH false). destruct (verify_loop items received false).
        cbn [snd filter is_error List.length] in *. now rewrite IH.
Qed.

Lemma item_passes_iff (received : dict) (key : string) (value : json) :
  item_fails received (key, value) = false <->
  (is_excluded key = false ->
   exists received_value,
     PyDict.get key received = Some received_value
     /\ PyValue.eqb received_value value = true).
Proof.
  cbn [item_fails]. destruct (is_excluded key); cbn [negb andb].
  - split; [discriminate | reflexivity].
  - destruct (PyDict.get key received) as [rv|].
    + destruct (PyValue.eqb rv value) eqn:E; cbn [negb]; split; intros H.
      * intros _. exists rv. now split.
      * reflexivity.
      * discriminate.
      * destruct (H eq_refl) as (rv' & [= <-] & H'). congruence.
    + split; [discriminate|]. intros H.
      destruct (H eq_refl) as (rv' & [=] & _).
Qed.

(** C3, as the code has it: on a [received] that is not empty, [verify]
    answers [true] exactly when every key of [expected] outside the
    exclusion list is in [received] with an equal value, and it logs one
    error for each key that is not, none being skipped after the first.
    (On an empty [received] it answers [false] whatever [expected] is.) *)
Theorem verify_nonempty (expected received : dict) :
  received <> [] ->
  (verify expected (Some received) = true <->
   forall key value,
     In (key, value) expected -> is_excluded key = false ->
     exists received_value,
       PyDict.get key received = Some received_value
       /\ PyValue.eqb received_value value = true)
  /\ List.length (filter is_error (snd (verify_logged expected (Some received))))
     = List.length (filter (item_fails received) expected).
Proof.
  intros Hne. unfold verify, verify_logged.
  destruct received as [|r received]; [contradiction|].
  cbn [PyValue.truthy_dict PyValue.truthy negb].
  split; [|apply verify_loop_errors].
  rewrite verify_loop_result. cbn [andb]. rewrite forallb_forall. split.
  - intros H key value Hin. apply item_passes_iff.
    specialize (H _ Hin). now apply negb_true_iff in H.
  - intros H [key value] Hin. apply negb_true_iff, item_passes_iff.
    now apply H.
Qed.

Lemma verify_nonempty_witness :
  verify [("a"%string, JInt 1); ("save"%string, JBool true)]
         (Some [("a"%string, JInt 1)]) = true.
Proof.
  apply (verify_nonempty [("a"%string, JInt 1); ("save"%string, JBool true)]
           [("a"%string, JInt 1)]).
  - discriminate.
  - intros key value [[= <- <-]|[[= <- <-]|[]]] Hex.
    + exists (JInt 1). split; reflexivity.
    + discriminate.
Defined.

(** C3 as stated fails: every key of [expected] is excluded, so there is
    nothing [received] has to hold, and yet [verify] answers [false],
    because [received] is empty. *)
Lemma verify_all_excluded_empty :
  ~ (verify [("save"%string, JBool true)] (Some []) = true <->
     forall key value,
       In (key, value) [("save"%string, JBool true)] ->
       is_excluded key = false ->
       exists received_value,
         PyDict.get key [] = Some received_value
         /\ PyValue.eqb received_value value = true).
Proof.
  intros [_ H].
  assert (verify [("save"%string, JBool true)] (Some []) = true) as Hv.
  { apply H. intros key value [[= <- <-]|[]] Hex. discriminate. }
  discriminate.
Qed.

(** The examples of the specification. *)
Example verify_examples :
  verify [("a"%string, JInt 1); ("save"%string, JBool true)]
         (Some [("a"%string, JInt 1)]) = true
  /\ verify [("a"%string, JInt 1)] (Some [("a"%string, JInt 2)]) = false
  /\ verify [("a"%string, JInt 1)] (Some []) = false.
Proof. repeat split; reflexivity. Qed.

(** C10: on a [received] that is empty or [None], [verify] answers [false]
    before looking at [expected], and logs nothing. *)
Theorem verify_empty (expected : dict) :
  verify expected (Some []) = false
  /\ verify expected None = false
  /\ verify_logged expected (Some []) = (false, [])
  /\ verify_logged expected None = (false, []).
Proof. repeat split; reflexivity. Qed.

End VerifyFacts.

Module HandlerFacts.
Import SettingsHandler HandlerAux.

Lemma append_nil_r (s : string) : String.append s EmptyString = s.
Proof. induction s as [|c s IH]; cbn; [reflexivity | now rewrite IH]. Qed.

Lemma append_assoc (a b c : string) :
  String.append (String.append a b) c = String.append a (String.append b c).
Proof. induction a as [|x a IH]; cbn; [reflexivity | now rewrite IH]. Qed.

Lemma append_empty (a b : string) :
  String.append a b = EmptyString -> a = EmptyString /\ b = EmptyString.
Proof. destruct a; cbn; [auto | discriminate]. Qed.

Section WithExternals.
Context (ext : Externals).

(** Scanning a text that closes only at its end: after a first part the
    rest still closes only at its end. *)
Lemma closes_at_end_app (a b : string) :
  forall bc ij,
    closes_at_end bc ij (String.append a b) = true ->
    closes_at_end (fst (count_braces a bc ij)) (snd (count_braces a bc ij)) b
    = true.
Proof.
  induction a as [|ch a IH]; intros bc ij H; [exact H|].
  cbn [String.append closes_at_end count_braces] in *.
  apply andb_true_iff in H as [_ H].
  destruct (Ascii.eqb ch "{"); [now apply IH|].
  destruct (Ascii.eqb ch "}"); now apply IH.
Qed.

Lemma closes_at_end_closed (bc : Z) (ij : bool) (s : string) :
  closes_at_end bc ij s = true -> (ij && (bc =? 0)) = true ->
  s = EmptyString.
Proof.
  destruct s as [|ch s]; [reflexivity|]. cbn [closes_at_end].
  intros H Hc. rewrite Hc in H. discriminate.
Qed.

(** Once the object is complete, payloads that decode to nothing change
    nothing. *)
Lemma handle_all_idle (payloads : list bytes) :
  forall bc fut,
    decoded ext payloads = EmptyString ->
    handle_all ext (mk EmptyString bc false fut) payloads =
    (mk EmptyString bc false fut, [], map (fun _ => Returns) payloads).
Proof.
  induction payloads as [|p payloads IH]; intros bc fut H; [reflexivity|].
  cbn [decoded fold_right] in H. apply append_empty in H as [Hp Hrest].
  cbn [handle_all map]. unfold handle. cbn [buffer brace_count in_json].
  rewrite Hp. cbn [count_braces String.append andb response_future].
  now rewrite (IH bc fut Hrest).
Qed.

Lemma handle_all_reassembles (payloads : list bytes) :
  forall buf bc ij,
    (ij && (bc =? 0)) = false ->
    closes_at_end bc ij (decoded ext payloads) = true ->
    json_loads ext (String.append buf (decoded ext payloads)) <> Other_error ->
    handle_all ext (mk buf bc ij (Some Future.Pending)) payloads =
    (mk EmptyString 0 false
        (Some (Future.Finished
                 (parsed (json_loads ext
                            (String.append buf (decoded ext payloads)))))),
     [parsed (json_loads ext (String.append buf (decoded ext payloads)))],
     map (fun _ => Returns) payloads).
Proof.
  induction payloads as [|p payloads IH]; intros buf bc ij Hopen Hclose Hload.
  - cbn [decoded fold_right closes_at_end] in Hclose. congruence.
  - cbn [decoded fold_right] in Hclose, Hload |- *.
    fold (decoded ext payloads) in Hclose, Hload |- *.
    pose proof (closes_at_end_app _ _ _ _ Hclose) as Hrest.
    cbn [handle_all map]. unfold handle. cbn [buffer brace_count in_json].
    destruct (count_braces (bytes_decode_replace ext p) bc ij) as [bc' ij'].
    cbn [fst snd] in Hrest.
    destruct (ij' && (bc' =? 0)) eqn:Hdone.
    + pose proof (closes_at_end_closed _ _ _ Hrest Hdone) as Hnil.
      rewrite Hnil, append_nil_r in Hload |- *.
      apply andb_true_iff in Hdone as [_ Hz]. apply Z.eqb_eq in Hz. subst bc'.
      destruct (json_loads ext (String.append buf (bytes_decode_replace ext p)));
        [| | contradiction];
        cbn [response_future Future.done negb Future.set_result parsed];
        now rewrite (handle_all_idle payloads 0 _ Hnil).
    + cbn [response_future].
      rewrite <- append_assoc in Hload |- *.
      now rewrite (IH _ bc' ij' Hdone Hrest Hload).
Qed.

(** A text on which [json.loads] raises, complete in the buffer: every
    payload that decodes to nothing makes [handle] parse it and raise
    again. *)
Lemma handle_all_stuck (payloads : list bytes) (b : string)
  (fut : option (Future.t (option json))) :
  decoded ext payloads = EmptyString ->
  json_loads ext b = Other_error ->
  handle_all ext (mk b 0 true fut) payloads =
  (mk b 0 true fut, [], map (fun _ => Raises) payloads).
Proof.
  intros Hd Hl. induction payloads as [|p payloads IH]; [reflexivity|].
  cbn [decoded fold_right] in Hd. apply append_empty in Hd as [Hp Hrest].
  cbn [handle_all map]. unfold handle. cbn [buffer brace_count in_json].
  rewrite Hp. cbn [count_braces andb Z.eqb]. rewrite append_nil_r, Hl.
  cbn [response_future]. now rewrite (IH Hrest).
Qed.

(** When the braces close the object and [json.loads] raises something
    that is not a [json.JSONDecodeError], the exception leaves [handle]:
    no [set_result], the future still pending, the text kept in the
    buffer and [in_json] still set. *)
Lemma handle_all_loads_raises (payloads : list bytes) :
  forall buf bc ij,
    (ij && (bc =? 0)) = false ->
    closes_at_end bc ij (decoded ext payloads) = true ->
    json_loads ext (String.append buf (decoded ext payloads)) = Other_error ->
    exists endings,
      handle_all ext (mk buf bc ij (Some Future.Pending)) payloads =
      (mk (String.append buf (decoded ext payloads)) 0 true
          (Some Future.Pending), [], endings)
      /\ In Raises endings.
Proof.
  induction payloads as [|p payloads IH]; intros buf bc ij Hopen Hclose Hload.
  - cbn [decoded fold_right closes_at_end] in Hclose. congruence.
  - cbn [decoded fold_right] in Hclose, Hload |- *.
    fold (decoded ext payloads) in Hclose, Hload |- *.
    pose proof (closes_at_end_app _ _ _ _ Hclose) as Hrest.
    cbn [handle_all]. unfold handle at 1. cbn [buffer brace_count in_json].
    destruct (count_braces (bytes_decode_replace ext p) bc ij) as [bc' ij'].
    cbn [fst snd] in Hrest.
    destruct (ij' && (bc' =? 0)) eqn:Hdone.
    + pose proof (closes_at_end_closed _ _ _ Hrest Hdone) as Hnil.
      rewrite Hnil, append_nil_r in Hload |- *. rewrite Hload.
      apply andb_true_iff in Hdone as [Hij Hz]. apply Z.eqb_eq in Hz.
      subst bc' ij'. cbn [response_future].
      rewrite (handle_all_stuck payloads _ _ Hnil Hload).
      eexists. split; [reflexivity | now left].
    + cbn [response_future].
      rewrite <- append_assoc in Hload |- *.
      destruct (IH _ bc' ij' Hdone Hrest Hload) as (es & -> & Hin).
      exists (Returns :: es). split; [reflexivity | now right].
Qed.

End WithExternals.

(** X30: the reassembly where it works.  For a text whose braces open an
    object first and close it with the last character, and which
    [json.loads] parses, cut into payloads in any way in which the decoded
    payloads join to the text, the handler on which a wait is pending
    calls [set_result] exactly once, with the parsed object, raises
    nothing and is back in its starting state. *)
Lemma handle_reassembles (ext : Externals) (payloads : list bytes)
  (text : string) (o : json) :
  decoded ext payloads = text ->
  well_nested text = true ->
  json_loads ext text = Loaded o ->
  handle_all ext waiting payloads =
  (mk EmptyString 0 false (Some (Future.Finished (Some o))), [Some o],
   map (fun _ => Returns) payloads).
Proof.
  intros Htext Hnest Hload. subst text. unfold waiting.
  rewrite handle_all_reassembles;
    [| reflexivity | exact Hnest | cbn [String.append]; congruence].
  cbn [String.append]. now rewrite Hload.
Qed.

Lemma handle_reassembles_witness :
  handle_all Sample.externals waiting
    [[123; 34; 97]; []; [34; 58; 32; 123; 34; 98; 34; 58]; [32; 50; 125]; [125]; []]
  = (mk EmptyString 0 false
        (Some (Future.Finished (Some Sample.value_nested))),
     [Some Sample.value_nested],
     [Returns; Returns; Returns; Returns; Returns; Returns]).
Proof.
  apply (handle_reassembles Sample.externals
           [[123; 34; 97]; []; [34; 58; 32; 123; 34; 98; 34; 58];
            [32; 50; 125]; [125]; []]
           (Sample.latin1 Sample.text_nested) Sample.value_nested);
    reflexivity.
Defined.

(** C4 (every JSON object, also one with a brace inside a string, comes
    through every partition of its serialization): evaluation of the code
    on the response [{"a": "}"}], a text that [json.loads] parses.
    Delivered whole, it leaves the count at -1 and the wait pending, with
    no [set_result] call; delivered in two parts cut after the brace
    inside the string, the first part alone brings the count to 0 and the
    wait is resolved with the [None] of a failed parse. *)
Theorem handle_brace_in_string :
  json_loads Sample.externals
    (bytes_decode_replace Sample.externals Sample.text_brace)
  = Loaded Sample.value_brace
  /\ handle_all Sample.externals waiting [Sample.text_brace]
     = (mk (Sample.latin1 Sample.text_brace) (-1) true
           (Some Future.Pending), [], [Returns])
  /\ handle_all Sample.externals waiting
       [[123; 34; 97; 34; 58; 32; 34; 125]; [34; 125]]
     = (mk (Sample.latin1 [34; 125]) (-1) false
           (Some (Future.Finished None)), [None], [Returns; Returns]).
Proof. repeat split; reflexivity. Qed.

End HandlerFacts.

Module CorrelatorFacts.
Import HandlerAux.

Section WithExternals.
Context (ext : Externals).

(** A future that is done refuses [set_result]. *)
Lemma set_result_done (A : Type) (f : Future.t A) (v : A) :
  Future.done f = true -> Future.set_result f v = None.
Proof. destruct f; [discriminate | reflexivity | reflexivity]. Qed.

Lemma handle_done (self : SettingsHandler.t) (payload : bytes)
  (f : Future.t (option json)) :
  SettingsHandler.response_future self = Some f -> Future.done f = true ->
  exists self' ending,
    SettingsHandler.handle ext self payload = (self', [], ending)
    /\ SettingsHandler.response_future self' = Some f.
Proof.
  intros Hf Hd. unfold SettingsHandler.handle.
  destruct (SettingsHandler.count_braces _ _ _) as [bc ij].
  destruct (ij && (bc =? 0)).
  - rewrite Hf, Hd. cbn [negb].
    destruct (json_loads ext _); eexists _, _; split; try reflexivity;
      exact Hf.
  - eexists _, _. split; [reflexivity | exact Hf].
Qed.

Lemma handle_no_future (self : SettingsHandler.t) (payload : bytes) :
  SettingsHandler.response_future self = None ->
  exists self' ending,
    SettingsHandler.handle ext self payload = (self', [], ending)
    /\ SettingsHandler.response_future self' = None.
Proof.
  intros Hf. unfold SettingsHandler.handle.
  destruct (SettingsHandler.count_braces _ _ _) as [bc ij].
  destruct (ij && (bc =? 0)).
  - rewrite Hf.
    destruct (json_loads ext _); eexists _, _; split; try reflexivity;
      exact Hf.
  - eexists _, _. split; [reflexivity | exact Hf].
Qed.

(** What one [handle] call can do to the slot: nothing, or resolve it from
    pending. *)
Lemma handle_slot (self self' : SettingsHandler.t) (payload : bytes)
  (results : list (option json)) (ending0 : ending) :
  SettingsHandler.handle ext self payload = (self', results, ending0) ->
  (results = []
   /\ SettingsHandler.response_future self'
      = SettingsHandler.response_future self)
  \/ (exists v,
        results = [v]
        /\ SettingsHandler.response_future self = Some Future.Pending
        /\ SettingsHandler.response_future self'
           = Some (Future.Finished v)).
Proof.
  unfold SettingsHandler.handle.
  destruct (SettingsHandler.count_braces _ _ _) as [bc ij].
  destruct (ij && (bc =? 0)).
  - destruct (json_loads ext _);
      destruct (SettingsHandler.response_future self) as [[| |]|] eqn:Hf;
      cbn [Future.done negb Future.set_result]; intros [= <- <- <-];
      try (left; split; [reflexivity | cbn; congruence]);
      right; eexists; repeat split.
  - intros [= <- <- <-]. left. split; reflexivity.
Qed.

Lemma handle_all_settled (payloads : list bytes) :
  forall self self' results endings,
    SettingsHandler.response_future self <> Some Future.Pending ->
    SettingsHandler.handle_all ext self payloads = (self', results, endings) ->
    results = []
    /\ SettingsHandler.response_future self'
       = SettingsHandler.response_future self.
Proof.
  induction payloads as [|p payloads IH]; intros self self' results endings Hf;
    cbn [SettingsHandler.handle_all].
  - intros [= <- <- <-]. split; reflexivity.
  - destruct (SettingsHandler.handle ext self p) as [[s1 r1] e1] eqn:H1.
    destruct (SettingsHandler.handle_all ext s1 payloads) as [[s2 r2] e2]
      eqn:H2.
    intros [= <- <- <-].
    destruct (handle_slot _ _ _ _ _ H1) as [[-> Hs]|(v & _ & Hp & _)];
      [|contradiction].
    rewrite <- Hs in Hf. destruct (IH _ _ _ _ Hf H2) as [-> Hs2].
    split; [reflexivity | congruence].
Qed.

Lemma handle_all_at_most_once (payloads : list bytes) :
  forall self self' results endings,
    SettingsHandler.handle_all ext self payloads = (self', results, endings) ->
    (List.length results <= 1)%nat.
Proof.
  induction payloads as [|p payloads IH]; intros self self' results endings;
    cbn [SettingsHandler.handle_all].
  - intros [= <- <- <-]. cbn. lia.
  - destruct (SettingsHandler.handle ext self p) as [[s1 r1] e1] eqn:H1.
    destruct (SettingsHandler.handle_all ext s1 payloads) as [[s2 r2] e2]
      eqn:H2.
    intros [= <- <- <-].
    destruct (handle_slot _ _ _ _ _ H1) as [[-> Hs]|(v & -> & _ & Hfin)].
    + cbn [app]. eapply IH. exact H2.
    + destruct (handle_all_settled payloads s1 s2 r2 e2) as [-> _];
        [congruence | exact H2 |]. cbn. lia.
Qed.

Lemma handler_done (self : FWInfoReader.t) (payload : bytes) :
  Future.done (FWInfoReader._serial_future self) = true ->
  FWInfoReader.handler ext self payload = self.
Proof.
  intros Hd. unfold FWInfoReader.handler.
  destruct (pb_FromString ext payload) as [[serial|]|]; try reflexivity.
  now rewrite Hd.
Qed.

Lemma handler_resolves (payload : bytes) (serial : string) :
  pb_FromString ext payload = Some (Some serial) ->
  FWInfoReader.handler ext FWInfoReader.init payload
  = FWInfoReader.mk (Future.Finished serial).
Proof. intros H. unfold FWInfoReader.handler. now rewrite H. Qed.

(** The wait for the serial number sits through any number of ticks. *)
Lemma wait_serial_ticks (n : nat) :
  FWInfoReader.wait_serial ext FWInfoReader.init (repeat Tick n)
  = (Suspended, FWInfoReader.init).
Proof. induction n as [|n IH]; [reflexivity | exact IH]. Qed.

(** The wait for a settings response gives up after [timeout] ticks, with
    [None], and cancels its future. *)
Lemma wait_response_times_out (timeout n : nat) (self : SettingsHandler.t) :
  (timeout <= n)%nat ->
  SettingsHandler.wait_response ext timeout self (repeat Tick n)
  = (Returned None,
     SettingsHandler.mk (SettingsHandler.buffer self)
       (SettingsHandler.brace_count self) (SettingsHandler.in_json self)
       (Some Future.Cancelled)).
Proof.
  unfold SettingsHandler.wait_response.
  set (s := SettingsHandler.mk _ _ _ (Some Future.Pending)).
  revert n. induction timeout as [|timeout IH]; intros n Hn.
  - destruct n; reflexivity.
  - destruct n as [|n]; [lia|].
    cbn [repeat SettingsHandler.wait_for SettingsHandler.response_future s].
    apply IH. lia.
Qed.

End WithExternals.

(** C9, as the code has it.  A slot is resolved at most once: on a slot
    that is done a fulfilment attempt changes nothing and calls
    [set_result] not at all (the call would be refused), whether [handle]
    returns or raises, and a run of
    [handle] calls makes at most one [set_result] call.  A settings
    response that arrives while the handler has no future, no wait having
    been started yet, sets nothing.  The serial slot is there from
    construction on: a device-info response that arrives before
    [wait_serial] is called resolves it, and [wait_serial] then returns
    that serial number at once. *)
Theorem slots_resolved_at_most_once (ext : Externals) :
  (forall self payload f,
      SettingsHandler.response_future self = Some f ->
      Future.done f = true ->
      exists self' ending,
        SettingsHandler.handle ext self payload = (self', [], ending)
        /\ SettingsHandler.response_future self' = Some f)
  /\ (forall self payload,
        SettingsHandler.response_future self = None ->
        exists self' ending,
          SettingsHandler.handle ext self payload = (self', [], ending)
          /\ SettingsHandler.response_future self' = None)
  /\ (forall self payloads self' results endings,
        SettingsHandler.handle_all ext self payloads
        = (self', results, endings) ->
        (List.length results <= 1)%nat)
  /\ (forall self payload,
        Future.done (FWInfoReader._serial_future self) = true ->
        FWInfoReader.handler ext self payload = self)
  /\ (forall (f : Future.t string) v,
        Future.done f = true -> Future.set_result f v = None)
  /\ (forall payload serial,
        pb_FromString ext payload = Some (Some serial) ->
        FWInfoReader.handler ext FWInfoReader.init payload
        = FWInfoReader.mk (Future.Finished serial)
        /\ FWInfoReader.wait_serial ext
             (FWInfoReader.handler ext FWInfoReader.init payload) []
           = (Returned serial, FWInfoReader.mk (Future.Finished serial))).
Proof.
  repeat split.
  - apply handle_done.
  - apply handle_no_future.
  - intros self payloads. apply handle_all_at_most_once.
  - apply handler_done.
  - intros f v. apply set_result_done.
  - now apply handler_resolves.
  - rewrite (handler_resolves ext payload serial H). reflexivity.
Qed.

(** C9 as stated fails for the serial slot: no [wait_serial] has been
    called on a reader just constructed, and a device-info response is not
    a no-op on it; it resolves the slot, and the value is what a later
    [wait_serial] returns. *)
Lemma serial_resolved_before_wait :
  FWInfoReader.handler Sample.externals FWInfoReader.init [1; 65; 66; 67]
  <> FWInfoReader.init
  /\ FWInfoReader.handler Sample.externals FWInfoReader.init [1; 65; 66; 67]
     = FWInfoReader.mk (Future.Finished "ABC"%string)
  /\ fst (FWInfoReader.wait_serial Sample.externals
            (FWInfoReader.handler Sample.externals FWInfoReader.init
               [1; 65; 66; 67]) [])
     = Returned "ABC"%string.
Proof. repeat split; discriminate. Qed.

End CorrelatorFacts.

Module AuthorizerFacts.
Import DTSettingsAuthorizer.

(** The envelope that [sign_settings] builds: [cnt] is the base64 of the
    serialized settings with the serial under [sn], [sig] the base64 of
    the CCM tag of [cnt] under the key and the nonce [bytearray(13)]. *)
Lemma sign_settings_valid (ext : Externals) (self : t) (settings : dict)
  (serial : string) (rnd : entropy) :
  valid_key (key self) = true ->
  sign_settings ext self settings serial rnd
  = Some
      (let content :=
         b64encode ext
           (str_encode ext
              (json_dumps ext
                 (JObj (PyDict.set "sn" (JStr serial) settings)))) in
       [("cnt"%string, JStr (bytes_decode ext content));
        ("sig"%string,
         JStr (bytes_decode ext
                 (b64encode ext
                    (ccm_tag ext (key self) (repeat 0 13) content))))],
       rnd).
Proof.
  intros Hkey. unfold sign_settings, AES_new_CCM. rewrite Hkey.
  reflexivity.
Qed.

(** With a key that AES does not take, [sign_settings] raises. *)
Lemma sign_settings_invalid (ext : Externals) (self : t) (settings : dict)
  (serial : string) (rnd : entropy) :
  valid_key (key self) = false ->
  sign_settings ext self settings serial rnd = None.
Proof.
  intros Hkey. unfold sign_settings, AES_new_CCM. rewrite Hkey.
  reflexivity.
Qed.

(** C7: [sign_settings] reads nothing but its key, the settings and the
    serial number.  Two calls with the same settings and serial end the
    same way, whatever the state of the process's random source at each
    call: both raise (the key has a length that AES does not take), or
    both return envelopes with the same [cnt] and the same [sig].  No call
    draws from the random source: the nonce is the constant
    [bytearray(13)].  [cnt] is the base64 of the serialized settings with
    the serial under [sn], [sig] the base64 of the CCM tag of [cnt] under
    the key and that nonce. *)
Theorem sign_settings_deterministic (ext : Externals) (self : t)
  (settings : dict) (serial : string) (rnd1 rnd2 : entropy) :
  option_map fst (sign_settings ext self settings serial rnd1)
  = option_map fst (sign_settings ext self settings serial rnd2)
  /\ option_map snd (sign_settings ext self settings serial rnd1)
     = (if valid_key (key self) then Some rnd1 else None)
  /\ (let content :=
        b64encode ext
          (str_encode ext
             (json_dumps ext (JObj (PyDict.set "sn" (JStr serial) settings)))) in
      option_map fst (sign_settings ext self settings serial rnd1)
      = if valid_key (key self) then
          Some [("cnt"%string, JStr (bytes_decode ext content));
                ("sig"%string,
                 JStr (bytes_decode ext
                         (b64encode ext
                            (ccm_tag ext (key self) (repeat 0 13) content))))]
        else None).
Proof.
  destruct (valid_key (key self)) eqn:Hkey.
  - rewrite !(sign_settings_valid _ _ _ _ _ Hkey). repeat split.
  - rewrite !(sign_settings_invalid _ _ _ _ _ Hkey). repeat split.
Qed.

End AuthorizerFacts.

Module MainFacts.
Import Main.

Section WithEnvironment.
Context (ext : Externals) (cfg : Config).

(** The reconnect loop only adds to the trace... *)
Lemma reconnect_grows (n : nat) :
  forall w, exists added,
    trace (snd (reconnect ext cfg n w)) = trace w ++ added.
Proof.
  induction n as [|n IH]; intros w.
  - exists []. cbn. now rewrite app_nil_r.
  - cbn [reconnect].
    cbv [bind emit dispatcher_start read_settings wait_response ret].
    cbn [dev trace rnd settings_replies start_replies].
    destruct (start_replies (dev w)) as [|[|] starts];
      cbn [dev trace rnd settings_replies];
      try (destruct (settings_replies (dev w)) as [|r rest];
           cbn [dev trace snd]; try destruct (PyValue.truthy_dict _));
      cbn [dev trace snd];
      try (match goal with
           | |- context [reconnect ext cfg n ?w'] =>
               destruct (IH w') as [a Ha]; rewrite Ha
           end);
      cbn [trace]; rewrite <- ?app_assoc; cbn [app];
      eexists; reflexivity.
Qed.

(** ...and what it adds starts with a pause and a [dispatcher.start]. *)
Lemma reconnect_trace (n : nat) (w : world) :
  exists added,
    trace (snd (reconnect ext cfg (S n) w))
    = trace w ++ Sleep 1000 :: Connect :: added.
Proof.
  cbn [reconnect].
  cbv [bind emit dispatcher_start read_settings wait_response ret].
  cbn [dev trace rnd settings_replies start_replies].
  destruct (start_replies (dev w)) as [|[|] starts];
    cbn [dev trace rnd settings_replies];
    try (destruct (settings_replies (dev w)) as [|r rest];
         cbn [dev trace snd]; try destruct (PyValue.truthy_dict _));
    cbn [dev trace snd];
    try (match goal with
         | |- context [reconnect ext cfg n ?w'] =>
             destruct (reconnect_grows n w') as [a Ha]; rewrite Ha
         end);
    cbn [trace]; rewrite <- ?app_assoc; cbn [app];
    eexists; reflexivity.
Qed.

Lemma bind_run (A B : Type) (m : M A) (k : A -> M B) (w : world) :
  bind m k w = k (fst (m w)) (snd (m w)).
Proof. unfold bind. destruct (m w); reflexivity. Qed.

Lemma emit_all_run (l : list action) (w : world) :
  emit_all l w = (tt, mk_world (dev w) (trace w ++ l) (rnd w)).
Proof.
  revert w. induction l as [|a l IH]; intros w; cbn [emit_all].
  - unfold ret. rewrite app_nil_r. now destruct w.
  - rewrite bind_run. cbn [emit fst snd]. rewrite IH.
    cbn [dev trace rnd]. now rewrite <- app_assoc.
Qed.

(** One [wait_response()]: it takes the next reply, returns its value and
    logs its line. *)
Lemma wait_response_run (w : world) :
  exists d,
    wait_response w
    = (reply_value (hd Timeout (settings_replies (dev w))),
       mk_world d
         (trace w ++ reply_log (hd Timeout (settings_replies (dev w))))
         (rnd w))
    /\ settings_replies d = tl (settings_replies (dev w))
    /\ serial_reply d = serial_reply (dev w)
    /\ start_replies d = start_replies (dev w).
Proof.
  unfold wait_response.
  destruct (settings_replies (dev w)) as [|r rest] eqn:E; cbn [hd tl].
  - exists (dev w). rewrite E. repeat split.
  - eexists. repeat split.
Qed.

(** An upload whose read-back does not verify: what it writes and logs,
    and that it answers [False]. *)
Lemma upload_settings_failed (payload verify_dict : dict) (w : world) :
  verify_dict <> [] ->
  SettingsHandler.verify verify_dict
    (reply_value (hd Timeout (settings_replies (dev w)))) = false ->
  exists logs message,
    fst (upload_settings ext cfg payload (Some verify_dict) w) = false
    /\ trace (snd (upload_settings ext cfg payload (Some verify_dict) w))
       = trace w
         ++ [Transport_write By_upload_settings
               (Slip.encode
                  ([SETTINGS_MUX_ADDR cfg]
                   ++ str_encode ext (json_dumps ext (JObj payload))));
             Sleep 200;
             Transport_write By_read_settings
               (Slip.encode ([SETTINGS_MUX_ADDR cfg] ++ str_encode ext "{}"))]
         ++ logs ++ [Log_error message]
    /\ serial_reply (dev (snd (upload_settings ext cfg payload
                                 (Some verify_dict) w)))
       = serial_reply (dev w).
Proof.
  intros Hne Hverify. unfold upload_settings.
  rewrite !bind_run; cbv beta.
  cbn [emit read_settings fst snd dev trace rnd].
  destruct verify_dict as [|item verify_dict]; [contradiction|].
  match goal with
  | |- context [wait_response ?w1] =>
      destruct (wait_response_run w1) as (d & Hw & _ & Hs & _); rewrite Hw
  end.
  cbn [fst snd dev trace rnd] in *.
  set (r := hd Timeout (settings_replies (dev w))) in *.
  exists (reply_log r
          ++ if PyValue.truthy_dict (reply_value r) then
               map Log_verify
                 (snd (SettingsHandler.verify_logged (item :: verify_dict)
                         (reply_value r)))
             else []).
  destruct (PyValue.truthy_dict (reply_value r));
    cbn [negb PyValue.truthy PyValue.truthy_dict].
  - rewrite !bind_run, emit_all_run, Hverify.
    rewrite !bind_run. cbn [emit ret fst snd trace dev serial_reply].
    eexists. rewrite <- !app_assoc. cbn [app]. repeat split. exact Hs.
  - rewrite !bind_run. cbn [emit ret fst snd trace dev serial_reply].
    eexists. rewrite <- !app_assoc. cbn [app]. repeat split. exact Hs.
Qed.

(** What [sign] does with a key that AES takes. *)
Lemma sign_run (key : bytes) (settings : dict) (serial : string)
  (w : world) :
  DTSettingsAuthorizer.valid_key key = true ->
  exists signed,
    sign ext key settings serial w
    = (Some signed,
       mk_world (dev w) (trace w ++ [Log_debug "Signing content"]) (rnd w)).
Proof.
  intros Hkey. unfold sign. rewrite bind_run. cbn [emit fst snd rnd dev trace].
  rewrite (AuthorizerFacts.sign_settings_valid ext
             (DTSettingsAuthorizer.mk key) settings serial _ Hkey).
  eexists. reflexivity.
Qed.

(** The signed-settings flow when the read-back of the signed upload does
    not verify. *)
Lemma signed_flow_after_failed_upload (w : world) (serial : string) :
  DTSettingsAuthorizer.valid_key (AUTH_KEY cfg) = true ->
  serial_reply (dev w) = Some serial ->
  SettingsHandler.verify settings_to_send (reply_value (hd Timeout (settings_replies (dev w))))
  = false ->
  exists before message after,
    trace (snd (signed_settings_flow ext cfg w))
    = trace w ++ before
      ++ Log_error message
         :: Transport_write By_restart_device (restart_frame cfg) :: after
    /\ In Connect after
    /\ fst (signed_settings_flow ext cfg w) = Finished.
Proof.
  intros Hkey Hserial Hverify.
  unfold signed_settings_flow.
  rewrite bind_run; cbv beta. rewrite bind_run; cbv beta.
  rewrite bind_run; cbv beta.
  cbn [wait_serial emit fst snd dev]. rewrite Hserial.
  rewrite bind_run; cbv beta. rewrite bind_run; cbv beta.
  cbn [emit fst snd dev trace rnd].
  match goal with
  | |- context [sign ext (AUTH_KEY cfg) settings_to_send serial ?w0] =>
      destruct (sign_run (AUTH_KEY cfg) settings_to_send serial w0 Hkey)
        as [signed Hsign]; rewrite Hsign
  end.
  cbn [fst snd dev trace rnd].
  rewrite bind_run; cbv beta.
  match goal with
  | |- context [upload_settings ext cfg signed (Some settings_to_send) ?w1] =>
      destruct (upload_settings_failed signed settings_to_send w1)
        as (logs & message & _ & Hup & _);
      [discriminate | exact Hverify |];
      set (w2 := snd (upload_settings ext cfg signed (Some settings_to_send)
                        w1)) in *
  end.
  cbn [trace] in Hup.
  rewrite !bind_run; cbv beta.
  cbn [restart_device emit fst snd trace dev rnd].
  match goal with
  | |- context [reconnect ext cfg 10 ?w3] =>
      destruct (reconnect_trace 9 w3) as [added Hre];
      set (r := reconnect ext cfg 10 w3) in *
  end.
  cbn [trace] in Hre. rewrite Hup in Hre.
  exists ([Log_debug "Sending FWINFO request";
           Transport_write By_main_fwinfo
             (Slip.encode ([FWInfoReader.FWINFO_MUX_ADDR]
                           ++ FWInfoReader.build_request ext));
           Log_info "Using serial";
           Log_debug "Signing content";
           Transport_write By_upload_settings
             (Slip.encode
                ([SETTINGS_MUX_ADDR cfg]
                 ++ str_encode ext (json_dumps ext (JObj signed))));
           Sleep 200;
           Transport_write By_read_settings
             (Slip.encode ([SETTINGS_MUX_ADDR cfg] ++ str_encode ext "{}"))]
          ++ logs),
         message.
  destruct (fst r); cbn [ret emit fst snd trace]; rewrite Hre;
    eexists; (split; [|split]);
    try (rewrite <- !app_assoc; cbn [app]; reflexivity);
    cbn; auto.
Qed.

(** C2 (a failed signed upload is terminal: no restart, no reconnect):
    evaluation of [main], configured with a key that AES takes, on a
    device that is locked, answers the serial request, and whose
    read-back after the signed upload does not verify or does not come
    ([readback = Timeout]).  [main] logs the failure of the upload and
    goes on: the next thing it does is to write the restart frame, and
    after that it starts the reconnect. *)
Theorem restart_after_failed_signed_upload (locked : dict)
  (readback : reply) (serial : string) (rest : list reply)
  (starts : list bool) (r : DTSettingsAuthorizer.entropy) :
  DTSettingsAuthorizer.valid_key (AUTH_KEY cfg) = true ->
  PyValue.truthy
    (match PyDict.get "settings/lock" locked with
     | Some v => v
     | None => JBool false
     end) = true ->
  SettingsHandler.verify settings_to_send (reply_value readback) = false ->
  exists before message after,
    snd (run ext cfg
           (mk_device (Resolved (Some locked) :: readback :: rest)
              (Some serial) (true :: starts)) r)
    = before
      ++ Log_error message
         :: Transport_write By_restart_device (restart_frame cfg) :: after
    /\ In Connect after
    /\ fst (run ext cfg
              (mk_device (Resolved (Some locked) :: readback :: rest)
                 (Some serial) (true :: starts)) r) = Finished.
Proof.
  intros Hkey Hlocked Hverify.
  assert (PyValue.truthy_dict (Some locked) = true) as Hne.
  { destruct locked; [discriminate Hlocked | reflexivity]. }
  unfold run.
  set (w0 := mk_world _ [] r).
  assert (main ext cfg w0
          = signed_settings_flow ext cfg
              (mk_world (mk_device (readback :: rest) (Some serial) starts)
                 [Connect; Log_info "Connected";
                  Transport_write By_read_settings
                    (Slip.encode
                       ([SETTINGS_MUX_ADDR cfg] ++ str_encode ext "{}"));
                  Log_info
                    "Device is already locked, continuing with signed settings"]
                 r)) as Hmain.
  { unfold main. rewrite bind_run; cbv beta.
    cbn [dispatcher_start w0 dev start_replies fst snd negb].
    rewrite !bind_run; cbv beta.
    cbn [emit read_settings wait_response fst snd dev trace rnd
         settings_replies serial_reply start_replies app reply_value
         reply_log].
    rewrite Hne, Hlocked. cbn [negb].
    rewrite bind_run. reflexivity. }
  rewrite Hmain.
  match goal with
  | |- context [signed_settings_flow ext cfg ?w] =>
      destruct (signed_flow_after_failed_upload w serial Hkey eq_refl Hverify)
        as (before & message & after & Ht & Hin & Hout);
      destruct (signed_settings_flow ext cfg w) as [o w'] eqn:E
  end.
  cbn [fst snd trace] in *.
  eexists _, message, after. split; [|split]; [|exact Hin|exact Hout].
  rewrite Ht. rewrite app_assoc. reflexivity.
Qed.

(** C5 (the wait for the serial number ends after a timeout, with an
    absence): evaluation of the code on a device that never answers the
    firmware-info request.  [wait_serial] is still suspended after any
    number of ticks, and [main], having logged and written the request, is
    suspended with it: it does nothing more and does not return. *)
Theorem wait_serial_never_times_out :
  (forall n,
      FWInfoReader.wait_serial ext FWInfoReader.init (repeat Tick n)
      = (Suspended, FWInfoReader.init))
  /\ (forall w,
        serial_reply (dev w) = None ->
        fst (signed_settings_flow ext cfg w) = Hung
        /\ trace (snd (signed_settings_flow ext cfg w))
           = trace w
             ++ [Log_debug "Sending FWINFO request";
                 Transport_write By_main_fwinfo
                   (Slip.encode ([FWInfoReader.FWINFO_MUX_ADDR]
                                 ++ FWInfoReader.build_request ext))]).
Proof.
  split.
  - apply CorrelatorFacts.wait_serial_ticks.
  - intros w H. unfold signed_settings_flow.
    rewrite !bind_run; cbv beta.
    cbn [wait_serial emit fst snd dev trace]. rewrite H.
    split; [reflexivity|]. cbn [ret snd trace].
    now rewrite <- app_assoc.
Qed.

End WithEnvironment.
End MainFacts.

Module ScenarioFacts.
Import Main Scenarios.

Lemma restart_after_failed_signed_upload_witness :
  exists before message after,
    snd (run_sample mismatching_device)
    = before
      ++ Log_error message
         :: Transport_write By_restart_device (restart_frame Sample.config)
         :: after
    /\ In Connect after
    /\ fst (run_sample mismatching_device) = Finished.
Proof.
  apply (MainFacts.restart_after_failed_signed_upload
           Sample.externals Sample.config
           [("settings/lock"%string, JBool true)]
           (Resolved (Some [("settings/lock"%string, JBool true);
                            ("app/brightness"%string, JInt 30)]))
           "ABC123"%string
           [Resolved (Some [("settings/lock"%string, JBool true)])]
           [true] []);
    reflexivity.
Defined.

(** The same run, looked at as a whole: the restart frame is written once
    and the run reconnects. *)
Example mismatching_device_run :
  fst (run_sample mismatching_device) = Finished
  /\ List.length (filter is_restart (snd (run_sample mismatching_device)))
     = 1%nat
  /\ List.length (filter is_start (snd (run_sample mismatching_device)))
     = 2%nat.
Proof. vm_compute. repeat split. Qed.

(** The sibling steps do stop: when the lock does not read back, [main]
    returns without asking for the serial number and without writing the
    restart frame. *)
Example lock_failure_is_terminal :
  fst (run_sample unlockable_device) = Finished
  /\ existsb is_fwinfo_request (snd (run_sample unlockable_device)) = false
  /\ existsb is_restart (snd (run_sample unlockable_device)) = false
  /\ List.length (filter is_start (snd (run_sample unlockable_device)))
     = 1%nat
  /\ last (snd (run_sample unlockable_device)) Connect = Transport_close.
Proof. vm_compute. repeat split. Qed.

(** A run that goes well: one restart, three reconnect attempts. *)
Example good_device_run :
  fst (run_sample good_device) = Finished
  /\ List.length (filter is_restart (snd (run_sample good_device))) = 1%nat
  /\ List.length (filter is_start (snd (run_sample good_device))) = 4%nat
  /\ existsb
       (fun a => match a with
                 | Log_info m => String.eqb m "Device restarted successfully"
                 | _ => false
                 end)
       (snd (run_sample good_device)) = true.
Proof. vm_compute. repeat split. Qed.

(** A device that never sends its serial number: [main] writes the request
    and hangs. *)
Example mute_device_run :
  fst (run_sample mute_device) = Hung
  /\ existsb is_restart (snd (run_sample mute_device)) = false
  /\ last (snd (run_sample mute_device)) Connect
     = Transport_write By_main_fwinfo
         (Slip.encode (FWInfoReader.FWINFO_MUX_ADDR
                       :: pb_read_device_info Sample.externals)).
Proof. vm_compute. repeat split. Qed.

End ScenarioFacts.

Module FrameFacts.
Import PyBytes Slip SlipAux FrameAux SlipFacts SlipSerialReaderFacts.

Lemma escape_well_escaped (x rest : bytes) :
  well_escaped (flat_map escape x ++ rest) = well_escaped rest.
Proof.
  induction x as [|c x IH]; [reflexivity|].
  cbn [flat_map]. rewrite <- app_assoc. unfold escape at 1.
  destruct (c =? ESC) eqn:E1.
  - cbn [app well_escaped]. exact IH.
  - destruct (c =? END) eqn:E2.
    + cbn [app well_escaped]. exact IH.
    + cbn [app well_escaped]. rewrite E1, E2. exact IH.
Qed.

Lemma well_escaped_no_END (s : bytes) :
  well_escaped s = true -> contains END s = false.
Proof.
  induction s as [| c | c d s IH IHd] using list_pair_ind.
  - reflexivity.
  - cbn [well_escaped]. destruct (c =? ESC) eqn:E; [discriminate|].
    rewrite contains_cons. destruct (c =? END); [discriminate|reflexivity].
  - cbn [well_escaped]. destruct (c =? ESC) eqn:E.
    + intros H. apply andb_true_iff in H as [Hd Hs].
      rewrite !contains_cons, (IH Hs).
      apply Z.eqb_eq in E. subst c.
      destruct (d =? END) eqn:Ed; [|reflexivity].
      apply Z.eqb_eq in Ed. subst d. discriminate.
    + intros H. apply andb_true_iff in H as [Hc Hs].
      rewrite contains_cons, (IHd Hs).
      destruct (c =? END); [discriminate|reflexivity].
Qed.

Lemma escaped_body (x : bytes) :
  well_escaped (flat_map escape x) = true
  /\ contains END (flat_map escape x) = false.
Proof.
  assert (well_escaped (flat_map escape x) = true) as H.
  { rewrite <- (app_nil_r (flat_map escape x)). now rewrite escape_well_escaped. }
  split; [exact H | now apply well_escaped_no_END].
Qed.

(** X1: an encoded frame is a body followed by one [END]; the body holds
    no [END], and every [ESC] in it is followed by [ESC_END] or
    [ESC_ESC]. *)
Theorem encode_frame_shape (x : bytes) :
  exists body,
    encode x = body ++ [END]
    /\ well_escaped body = true
    /\ contains END body = false.
Proof.
  exists (flat_map escape x). rewrite encode_escape.
  destruct (escaped_body x) as [H1 H2]. now repeat split.
Qed.

Lemma escape_length (c : byte) :
  List.length (escape c) = if reserved c then 2%nat else 1%nat.
Proof.
  unfold escape, reserved.
  destruct (c =? ESC); [reflexivity|]. destruct (c =? END); reflexivity.
Qed.

(** X3: [encode] adds one byte for each [ESC] and each [END] of the data,
    and one for the terminator. *)
Theorem encode_length (x : bytes) :
  List.length (encode x)
  = (List.length x + List.length (filter reserved x) + 1)%nat.
Proof.
  rewrite encode_escape, length_app. cbn [List.length]. f_equal.
  induction x as [|c x IH]; [reflexivity|].
  cbn [flat_map filter]. rewrite length_app, escape_length, IH.
  destruct (reserved c); cbn [List.length]; lia.
Qed.


Lemma replace_pair_shrinks (a b n : byte) (x : bytes) :
  (List.length (replace [a; b] [n] x) <= List.length x)%nat
  /\ (has_adjacent a b x = true ->
      (List.length (replace [a; b] [n] x) < List.length x)%nat).
Proof.
  induction x as [| c | c d x IH IHd] using list_pair_ind.
  - split; [cbn; lia | discriminate].
  - rewrite replace_pair_one. split; [lia | discriminate].
  - rewrite replace_pair_cons. cbn [has_adjacent].
    rewrite (Z.eqb_sym a c), (Z.eqb_sym b d).
    destruct ((c =? a) && (d =? b)); cbn [orb app List.length] in *.
    + split; intros; lia.
    + destruct IHd as [IH1 IH2]. split; [lia|].
      intros H. specialize (IH2 H). lia.
Qed.

Lemma lstrip_shrinks (cs s : bytes) :
  lstrip cs s = s \/ (List.length (lstrip cs s) < List.length s)%nat.
Proof.
  induction s as [|c s IH]; [now left|].
  cbn [lstrip]. destruct (mem c cs); [|now left].
  right. cbn [List.length]. destruct IH as [-> | IH]; lia.
Qed.

Lemma lstrip_fixed (x : bytes) :
  lstrip [END] x = x -> starts_with_END x = false.
Proof.
  destruct x as [|c x]; [reflexivity|].
  cbn [lstrip mem existsb starts_with_END]. rewrite orb_false_r.
  destruct (c =? END); [|reflexivity].
  intros H. apply (f_equal (@List.length byte)) in H. cbn [List.length] in H.
  destruct (lstrip_shrinks [END] x) as [E | E]; [rewrite E in H|]; lia.
Qed.

Lemma strip_fixed (x : bytes) :
  strip [END] x = x ->
  starts_with_END x = false /\ starts_with_END (rev x) = false.
Proof.
  unfold strip, rstrip. intros H.
  destruct (lstrip_shrinks [END] x) as [E | E].
  - rewrite E in H. split; [now apply lstrip_fixed|].
    apply lstrip_fixed. rewrite <- H at 2. now rewrite rev_involutive.
  - apply (f_equal (@List.length byte)) in H. rewrite length_rev in H.
    destruct (lstrip_shrinks [END] (rev (lstrip [END] x))) as [E' | E'].
    + rewrite E', length_rev in H. lia.
    + rewrite length_rev in E'. lia.
Qed.

Lemma strip_shrinks (s : bytes) :
  (List.length (strip [END] s) <= List.length s)%nat.
Proof.
  unfold strip, rstrip. rewrite length_rev.
  destruct (lstrip_shrinks [END] (rev (lstrip [END] s))) as [-> | E];
    rewrite ?length_rev in *;
    destruct (lstrip_shrinks [END] s) as [E' | E']; rewrite ?E' in *; lia.
Qed.

Lemma starts_with_END_hd (x : bytes) :
  starts_with_END x = false <-> hd_error x <> Some END.
Proof.
  destruct x as [|c x]; cbn [starts_with_END hd_error].
  - split; [discriminate | reflexivity].
  - split.
    + intros H [= ->]. discriminate.
    + intros H. destruct (c =? END) eqn:E; [|reflexivity].
      apply Z.eqb_eq in E. congruence.
Qed.

Lemma survives_decode (x : bytes) :
  survives x = true -> decode (encode x) = x.
Proof.
  unfold survives. rewrite !andb_true_iff, !negb_true_iff.
  intros [[Hp Hh] Ht]. apply decode_encode_clean.
  - exact Hp.
  - now apply starts_with_END_hd.
  - now apply starts_with_END_hd.
Qed.

Lemma decode_survives (x : bytes) :
  decode (encode x) = x -> survives x = true.
Proof.
  unfold survives. rewrite !andb_true_iff, !negb_true_iff.
  rewrite decode_encode. intros H.
  destruct (has_adjacent ESC ESC_END x) eqn:Hp.
  - exfalso.
    destruct (replace_pair_shrinks ESC ESC_END END x) as [_ Hlt].
    specialize (Hlt Hp).
    pose proof (strip_shrinks (replace [ESC; ESC_END] [END] x)) as Hs.
    rewrite H in Hs. lia.
  - rewrite (replace_pair_absent _ _ _ _ Hp) in H.
    apply strip_fixed in H. tauto.
Qed.

(** X2: [decode] gives back the data of an encoded frame exactly when the
    data has no [ESC ESC_END] pair of its own and no [END] at its first or
    last place. *)
Theorem decode_encode_iff (x : bytes) :
  decode (encode x) = x <-> survives x = true.
Proof. split; [apply decode_survives | apply survives_decode]. Qed.

Lemma split_frames_raw (body rest : bytes) :
  contains END body = false ->
  split_frames [] ((body ++ [END]) ++ rest) =
  ((body ++ [END]) :: fst (split_frames [] rest), snd (split_frames [] rest)).
Proof.
  intros Hb. rewrite split_frames_app, (split_frames_app [] body [END]).
  rewrite (split_frames_clean [] body Hb).
  cbn [app split_frames Z.eqb END Pos.eqb].
  destruct (split_frames [] rest); reflexivity.
Qed.

Lemma split_frames_encoded (xs : list bytes) :
  split_frames [] (concat (map encode xs)) = (map encode xs, []).
Proof.
  induction xs as [|x xs IH]; [reflexivity|].
  cbn [map concat].
  rewrite encode_escape.
  destruct (escaped_body x) as [_ Hb].
  now rewrite (split_frames_raw _ _ Hb), IH.
Qed.

(** X4: frames written with [encode], one after the other, are cut by the
    reader into exactly those frames, in order, however the stream
    arrives in chunks, and nothing is left in the buffer. *)
Theorem frames_written_are_frames_read (xs chunks : list bytes) :
  concat chunks = concat (map encode xs) ->
  SlipSerialReader.feed_chunks SlipSerialReader.init chunks
  = Some (map encode xs, SlipSerialReader.init).
Proof.
  intros H. rewrite feed_chunks_split by reflexivity.
  cbn [SlipSerialReader.buffer SlipSerialReader.init app].
  now rewrite H, split_frames_encoded.
Qed.

Lemma frames_written_are_frames_read_witness :
  SlipSerialReader.feed_chunks SlipSerialReader.init
    [[0x10; 0x7B]; [0x7D; 0x0A; 0x12]; [0xDB; 0xDC; 0x0A]]
  = Some (map encode [[0x10; 0x7B; 0x7D]; [0x12; 0x0A]],
          SlipSerialReader.init).
Proof.
  apply (frames_written_are_frames_read [[0x10; 0x7B; 0x7D]; [0x12; 0x0A]]).
  reflexivity.
Defined.

Lemma process_packet_encode (x : bytes) :
  survives x = true ->
  SlipSerialReader.process_packet (encode x) = address_payload x.
Proof.
  intros H. unfold SlipSerialReader.process_packet.
  rewrite (survives_decode x H). destruct x; reflexivity.
Qed.

Lemma dispatched_encoded (xs : list bytes) :
  Forall (fun x => survives x = true) xs ->
  SlipSerialReader.dispatched (map encode xs) = somes (map address_payload xs).
Proof.
  induction 1 as [|x xs Hx _ IH]; [reflexivity|].
  cbn [map SlipSerialReader.dispatched somes].
  rewrite (process_packet_encode x Hx), IH.
  destruct (address_payload x); reflexivity.
Qed.

(** X5: when the data of each frame is such that [decode] gives it back,
    the reader dispatches, in order, the first byte of each frame as the
    address and the rest as the payload; a frame without data is
    dropped. *)
Theorem frames_written_are_dispatched (xs chunks : list bytes) :
  Forall (fun x => survives x = true) xs ->
  concat chunks = concat (map encode xs) ->
  option_map (fun r => SlipSerialReader.dispatched (fst r))
    (SlipSerialReader.feed_chunks SlipSerialReader.init chunks)
  = Some (somes (map address_payload xs)).
Proof.
  intros Hs H. rewrite feed_chunks_split by reflexivity.
  cbn [SlipSerialReader.buffer SlipSerialReader.init app option_map fst].
  rewrite H, split_frames_encoded. cbn [fst].
  now rewrite dispatched_encoded.
Qed.

Lemma frames_written_are_dispatched_witness :
  option_map (fun r => SlipSerialReader.dispatched (fst r))
    (SlipSerialReader.feed_chunks SlipSerialReader.init
       [[0x10; 0x7B]; [0x7D; 0x0A; 0x0A; 0x12]; [0x01; 0xDB; 0xDC; 0x02; 0x0A]])
  = Some [(0x10, [0x7B; 0x7D]); (0x12, [0x01; 0x0A; 0x02])].
Proof.
  apply (frames_written_are_dispatched
           [[0x10; 0x7B; 0x7D]; []; [0x12; 0x01; 0x0A; 0x02]]).
  - repeat constructor.
  - reflexivity.
Defined.

End FrameFacts.

Module DispatcherFacts.
Import SlipDispatcher FrameAux.

Section WithHandlers.
Context {handler : Type}.
Implicit Types (m : @handler_map handler) (h : handler).

Lemma get_append_at m (a a' : byte) h :
  get a' (append_at a h m)
  = if a' =? a then option_map (fun hs => hs ++ [h]) (get a m)
    else get a' m.
Proof.
  induction m as [|[k hs] m IH]; cbn [get append_at].
  - destruct (a' =? a); reflexivity.
  - destruct (k =? a) eqn:Ek.
    + apply Z.eqb_eq in Ek. subst k. cbn [get].
      rewrite (Z.eqb_sym a a'). destruct (a' =? a); reflexivity.
    + cbn [get]. rewrite IH. destruct (k =? a') eqn:Ek'; [|reflexivity].
      apply Z.eqb_eq in Ek'. subst k. now rewrite Ek.
Qed.

Lemma get_snoc m (a a' : byte) (hs : list handler) :
  get a' (m ++ [(a, hs)])
  = match get a' m with
    | Some x => Some x
    | None => if a =? a' then Some hs else None
    end.
Proof.
  induction m as [|[k x] m IH]; cbn [app get]; [reflexivity|].
  destruct (k =? a'); [reflexivity | exact IH].
Qed.

(** X6: after [register_handler(a, h)] the handlers of [a] are those it
    had, in their order, followed by [h]; the handlers of every other
    address are as before. *)
Theorem register_handler_lookup m (a a' : byte) h :
  handlers_for (register_handler m a h) a'
  = if a' =? a then handlers_for m a ++ [h] else handlers_for m a'.
Proof.
  unfold handlers_for, register_handler, contains.
  destruct (get a m) as [hs|] eqn:Ha; cbn [negb].
  - rewrite get_append_at, Ha. cbn [option_map].
    destruct (a' =? a); reflexivity.
  - rewrite get_append_at, !get_snoc, Ha, Z.eqb_refl. cbn [option_map app].
    destruct (a' =? a) eqn:E; [reflexivity|].
    destruct (get a' m); [reflexivity|].
    now rewrite Z.eqb_sym, E.
Qed.

(** X7: a frame encoded from an address byte and a payload that [decode]
    gives back calls every handler registered for that address with the
    payload, in registration order, and no handler of another address. *)
Theorem frame_reaches_its_handlers m (address : byte) (payload : bytes) :
  survives (address :: payload) = true ->
  process_packet_calls m (Slip.encode (address :: payload))
  = map (fun h => (h, payload)) (handlers_for m address).
Proof.
  intros H. unfold process_packet_calls.
  rewrite (FrameFacts.process_packet_encode _ H). cbn [address_payload].
  destruct (handlers_for m address); reflexivity.
Qed.

End WithHandlers.

Lemma frame_reaches_its_handlers_witness :
  process_packet_calls
    (register_handler
       (register_handler (register_handler init 0x10 "settings"%string)
          0x12 "fwinfo"%string)
       0x10 "logger"%string)
    (Slip.encode [0x10; 0x7B; 0x7D])
  = [("settings"%string, [0x7B; 0x7D]); ("logger"%string, [0x7B; 0x7D])].
Proof.
  apply (frame_reaches_its_handlers
           (register_handler
              (register_handler (register_handler init 0x10 "settings"%string)
                 0x12 "fwinfo"%string)
              0x10 "logger"%string)
           0x10 [0x7B; 0x7D]).
  reflexivity.
Defined.

End DispatcherFacts.

Module DelimitedMore.
Import PyBytes ProtobufDelimitedBuffer DelimitedAux DelimitedFacts.

Lemma drain_idle (b : bytes) :
  drain b = ([], b) <-> fst (_extract_next_message b) = None.
Proof.
  rewrite drain_unfold.
  destruct (_extract_next_message b) as [[msg|] remaining] eqn:E; cbn [fst].
  - destruct (drain remaining). split; discriminate.
  - split; reflexivity.
Qed.

(** X8: for every byte stream, well formed or not, [feed] called once per
    chunk hands the consumer the same messages, in the same order, and
    keeps the same bytes as one call on the joined stream; what it keeps
    never starts with a complete message.  The buffer to start from is
    one that does not start with a complete message, as the empty buffer
    of [__init__] and the buffer any call leaves. *)
Theorem feed_chunking (self : t) (chunks : list bytes) :
  fst (_extract_next_message (buffer self)) = None ->
  exists msgs self',
    feed_chunks self chunks = Some (msgs, self')
    /\ feed self (concat chunks) = Some (msgs, self')
    /\ fst (_extract_next_message (buffer self')) = None.
Proof.
  intros Hinv. apply drain_idle in Hinv.
  rewrite (feed_chunks_drain chunks self Hinv), feed_drain.
  eexists _, _. split; [reflexivity|]. split; [reflexivity|].
  cbn [buffer]. apply drain_idle.
  apply (drain_rest (S (List.length (buffer self ++ concat chunks)))). lia.
Qed.

Lemma feed_chunking_witness :
  exists msgs self',
    feed_chunks init [[2; 7]; [8; 0x83]; [0x00; 1; 2]; [3; 5]]
    = Some (msgs, self')
    /\ feed init (concat [[2; 7]; [8; 0x83]; [0x00; 1; 2]; [3; 5]])
       = Some (msgs, self')
    /\ fst (_extract_next_message (buffer self')) = None.
Proof.
  apply (feed_chunking init [[2; 7]; [8; 0x83]; [0x00; 1; 2]; [3; 5]]).
  reflexivity.
Defined.

Lemma lor_below (a b n : Z) :
  0 <= n -> 0 <= a < 2 ^ n -> 0 <= b < 2 ^ n -> 0 <= Z.lor a b < 2 ^ n.
Proof.
  intros Hn Ha Hb. split; [apply Z.lor_nonneg; lia|].
  destruct (Z.eq_dec (Z.lor a b) 0) as [->|Hne]; [lia|].
  assert (0 < Z.lor a b) as Hpos.
  { pose proof (proj2 (Z.lor_nonneg a b) (conj (proj1 Ha) (proj1 Hb))). lia. }
  assert (0 < n) as Hn'.
  { destruct (Z.eq_dec n 0) as [->|]; [|lia].
    assert (a = 0) by (change (2 ^ 0) with 1 in Ha; lia).
    assert (b = 0) by (change (2 ^ 0) with 1 in Hb; lia).
    subst. cbn in Hne. lia. }
  apply Z.log2_lt_pow2; [exact Hpos|].
  rewrite Z.log2_lor by lia.
  apply Z.max_lub_lt.
  - destruct (Z.eq_dec a 0) as [->|]; [cbn; lia|].
    apply Z.log2_lt_pow2; lia.
  - destruct (Z.eq_dec b 0) as [->|]; [cbn; lia|].
    apply Z.log2_lt_pow2; lia.
Qed.

Lemma read_varint_from_below (buf : bytes) :
  forall acc shift i v k,
    0 <= shift -> 0 <= acc < 2 ^ shift ->
    read_varint_from buf acc shift i = Some (v, k) ->
    0 <= v < 2 ^ (shift + 7 * (Z.of_nat k - Z.of_nat i)).
Proof.
  induction buf as [|x buf IH]; intros acc shift i v k Hs Ha;
    cbn [read_varint_from]; [discriminate|].
  assert (0 <= Z.lor acc (Z.shiftl (Z.land x 0x7F) shift) < 2 ^ (shift + 7))
    as Hr.
  { apply lor_below; [lia | |].
    - split; [lia|]. eapply Z.lt_le_trans; [apply Ha|].
      apply Z.pow_le_mono_r; lia.
    - assert (0 <= Z.land x 0x7F < 2 ^ 7) as Hx.
      { change 0x7F with (Z.ones 7). rewrite Z.land_ones by lia.
        apply Z.mod_pos_bound. lia. }
      rewrite Z.shiftl_mul_pow2 by lia. rewrite Z.pow_add_r by lia.
      split; [apply Z.mul_nonneg_nonneg; lia|].
      rewrite (Z.mul_comm (2 ^ shift)).
      apply Z.mul_lt_mono_pos_r; lia. }
  destruct (Z.land x 0x80 =? 0).
  - intros [= <- <-].
    replace (shift + 7 * (Z.of_nat (i + 1) - Z.of_nat i)) with (shift + 7)
      by lia.
    exact Hr.
  - intros H. pose proof (read_varint_from_bound _ _ _ _ _ _ H) as Hk.
    apply IH in H; [|lia|exact Hr].
    replace (shift + 7 * (Z.of_nat k - Z.of_nat i))
      with (shift + 7 + 7 * (Z.of_nat k - Z.of_nat (i + 1))) by lia.
    exact H.
Qed.

(** X9: a length prefix that [_read_varint] accepts takes at least one
    byte and no more than the buffer has, its value is not negative and
    below 2^(7 * its length), and it reads the same when more bytes
    follow. *)
Theorem read_varint_bounds (buf : bytes) (size : Z) (size_len : nat) :
  _read_varint buf = Some (size, size_len) ->
  (1 <= size_len <= List.length buf)%nat
  /\ 0 <= size < 2 ^ (7 * Z.of_nat size_len)
  /\ forall more, _read_varint (buf ++ more) = Some (size, size_len).
Proof.
  unfold _read_varint. intros H.
  pose proof (read_varint_from_bound _ _ _ _ _ _ H) as Hk.
  pose proof (read_varint_from_below buf 0 0 0 size size_len
                (Z.le_refl 0) ltac:(cbn; lia) H) as Hv.
  split; [lia|]. split.
  - replace (7 * Z.of_nat size_len)
      with (0 + 7 * (Z.of_nat size_len - Z.of_nat 0)) by lia.
    exact Hv.
  - intros more. now apply read_varint_from_app.
Qed.

Lemma read_varint_bounds_witness :
  (1 <= 2 <= List.length [0xAC; 0x02; 0x55])%nat
  /\ 0 <= 300 < 2 ^ (7 * Z.of_nat 2)
  /\ forall more, _read_varint ([0xAC; 0x02; 0x55] ++ more) = Some (300, 2%nat).
Proof.
  apply (read_varint_bounds [0xAC; 0x02; 0x55] 300 2). reflexivity.
Defined.

End DelimitedMore.

Module ReassemblyFacts.
Import SettingsHandler HandlerAux ReassemblyAux HandlerFacts.

(** X10: when the braces of the text close the object and [json.loads]
    raises [json.JSONDecodeError] on the text, every [handle] call
    returns, the pending slot is resolved exactly once, with [None], and
    the handler is back in its starting state. *)
Theorem handle_parse_failure (ext : Externals) (payloads : list bytes)
  (text : string) :
  decoded ext payloads = text ->
  well_nested text = true ->
  json_loads ext text = Decode_error ->
  handle_all ext waiting payloads =
  (mk EmptyString 0 false (Some (Future.Finished None)), [None],
   map (fun _ => Returns) payloads).
Proof.
  intros Htext Hnest Hload. subst text.
  pose proof (handle_all_reassembles ext payloads EmptyString 0 false
                eq_refl Hnest) as H.
  cbn [String.append] in H. rewrite Hload in H.
  apply H. discriminate.
Qed.

Lemma handle_parse_failure_witness :
  handle_all Sample.externals waiting [[123; 120]; [58; 49; 125]] =
  (mk EmptyString 0 false (Some (Future.Finished None)), [None],
   map (fun _ => Returns) [[123; 120]; [58; 49; 125]]).
Proof.
  apply (handle_parse_failure Sample.externals [[123; 120]; [58; 49; 125]]
           (Sample.latin1 [123; 120; 58; 49; 125]));
    reflexivity.
Defined.

(** X27: when the braces of the text close the object and [json.loads]
    raises another exception than [json.JSONDecodeError] (the
    [ValueError] for an integer of more than 4300 digits, a
    [RecursionError]), the [handle] call that sees the closing brace
    raises: no [set_result] call is made, the future stays pending, and
    the text stays in the buffer with [in_json] set and the count at
    zero. *)
Theorem handle_loads_raises (ext : Externals) (payloads : list bytes)
  (text : string) :
  decoded ext payloads = text ->
  well_nested text = true ->
  json_loads ext text = Other_error ->
  exists endings,
    handle_all ext waiting payloads =
    (mk text 0 true (Some Future.Pending), [], endings)
    /\ In Raises endings.
Proof.
  intros Htext Hnest Hload. subst text.
  exact (handle_all_loads_raises ext payloads EmptyString 0 false
           eq_refl Hnest Hload).
Qed.

Lemma handle_loads_raises_witness :
  exists endings,
    handle_all Sample.externals waiting
      [[123; 34; 110; 34; 58; 32]; repeat 57 4301 ++ [125]] =
    (mk (Sample.latin1 Sample.text_digits) 0 true (Some Future.Pending), [],
     endings)
    /\ In Raises endings.
Proof.
  apply (handle_loads_raises Sample.externals
           [[123; 34; 110; 34; 58; 32]; repeat 57 4301 ++ [125]]
           (Sample.latin1 Sample.text_digits));
    vm_compute; reflexivity.
Defined.

(** X28: after such a raise the handler does not recover on its own: the
    text stays in the buffer with the count at zero, so every later
    payload without text is parsed again and raises again, and the future
    is never resolved. *)
Theorem handle_raises_again (ext : Externals) (payloads : list bytes)
  (text : string) (fut : option (Future.t (option json))) :
  decoded ext payloads = EmptyString ->
  json_loads ext text = Other_error ->
  handle_all ext (mk text 0 true fut) payloads =
  (mk text 0 true fut, [], map (fun _ => Raises) payloads).
Proof. intros. now apply handle_all_stuck. Qed.

Lemma handle_raises_again_witness :
  handle_all Sample.externals
    (mk (Sample.latin1 Sample.text_digits) 0 true (Some Future.Pending))
    [[]; []] =
  (mk (Sample.latin1 Sample.text_digits) 0 true (Some Future.Pending), [],
   map (fun _ : bytes => Raises) [[]; []]).
Proof.
  apply (handle_raises_again Sample.externals [[]; []]
           (Sample.latin1 Sample.text_digits) (Some Future.Pending));
    vm_compute; reflexivity.
Defined.

Lemma count_braces_shift (s : string) :
  forall bc ij bc' ij',
    fst (count_braces s bc ij) - bc = fst (count_braces s bc' ij') - bc'.
Proof.
  induction s as [|ch s IH]; intros bc ij bc' ij'; cbn [count_braces].
  - cbn. lia.
  - destruct (Ascii.eqb ch "{").
    + specialize (IH (bc + 1) true (bc' + 1) true). lia.
    + destruct (Ascii.eqb ch "}").
      * specialize (IH (bc - 1) ij (bc' - 1) ij'). lia.
      * apply IH.
Qed.

Lemma count_braces_delta (s : string) (bc : Z) (ij : bool) :
  fst (count_braces s bc ij) = bc + brace_delta s.
Proof.
  unfold brace_delta. pose proof (count_braces_shift s bc ij 0 false). lia.
Qed.

Section WithExternals.
Context (ext : Externals).

Lemma handle_unbalanced (self : t) (payload : bytes) :
  brace_count self <> 0 ->
  brace_delta (bytes_decode_replace ext payload) = 0 ->
  exists self',
    handle ext self payload = (self', [], Returns)
    /\ response_future self' = response_future self
    /\ brace_count self' = brace_count self
    /\ buffer self'
       = String.append (buffer self) (bytes_decode_replace ext payload).
Proof.
  intros Hbc Hd. unfold handle.
  pose proof (count_braces_delta (bytes_decode_replace ext payload)
                (brace_count self) (in_json self)) as Hc.
  destruct (count_braces _ _ _) as [bc ij]. cbn [fst] in Hc.
  rewrite Hd, Z.add_0_r in Hc. subst bc.
  destruct (brace_count self =? 0) eqn:E; [apply Z.eqb_eq in E; contradiction|].
  rewrite andb_false_r. eexists. repeat split.
Qed.

Lemma handle_all_unbalanced (payloads : list bytes) :
  forall self,
    brace_count self <> 0 ->
    Forall (fun p => brace_delta (bytes_decode_replace ext p) = 0) payloads ->
    exists self',
      handle_all ext self payloads
      = (self', [], map (fun _ => Returns) payloads)
      /\ response_future self' = response_future self
      /\ brace_count self' = brace_count self.
Proof.
  induction payloads as [|p payloads IH]; intros self Hbc Hall.
  - exists self. repeat split.
  - inversion Hall as [|? ? Hp Hrest]; subst.
    destruct (handle_unbalanced self p Hbc Hp) as (s1 & H1 & Hf1 & Hb1 & _).
    destruct (IH s1 ltac:(congruence) Hrest) as (s2 & H2 & Hf2 & Hb2).
    exists s2. cbn [handle_all]. rewrite H1, H2.
    repeat split; congruence.
Qed.

End WithExternals.

(** X12: the brace count is never reset.  Once it is off zero between
    objects (a brace inside a string, a stray brace), payloads that each
    hold as many opening as closing braces, such as whole JSON objects,
    never resolve the slot: no [set_result] call, the future and the count
    stay as they are, and every call returns. *)
Theorem handler_does_not_recover (ext : Externals) (self : t)
  (payloads : list bytes) :
  brace_count self <> 0 ->
  Forall (fun p => brace_delta (bytes_decode_replace ext p) = 0) payloads ->
  exists self',
    handle_all ext self payloads
    = (self', [], map (fun _ => Returns) payloads)
    /\ response_future self' = response_future self
    /\ brace_count self' = brace_count self.
Proof. intros. now apply handle_all_unbalanced. Qed.

Lemma handler_does_not_recover_witness :
  exists self',
    handle_all Sample.externals
      (mk (Sample.latin1 Sample.text_brace) (-1) true (Some Future.Pending))
      [Sample.text_flat; Sample.text_nested]
    = (self', [],
       map (fun _ => Returns) [Sample.text_flat; Sample.text_nested])
    /\ response_future self' = Some Future.Pending
    /\ brace_count self' = -1.
Proof.
  apply (handler_does_not_recover Sample.externals
           (mk (Sample.latin1 Sample.text_brace) (-1) true
               (Some Future.Pending))
           [Sample.text_flat; Sample.text_nested]).
  - discriminate.
  - repeat constructor.
Defined.

Section Waiting.
Context (ext : Externals).

Lemma wait_for_delivers (events : list event) :
  forall timeout buf bc ij,
    (ij && (bc =? 0)) = false ->
    closes_at_end bc ij (decoded ext (payloads_of events)) = true ->
    json_loads ext (String.append buf (decoded ext (payloads_of events)))
    <> Other_error ->
    (ticks_of events < timeout)%nat ->
    wait_for ext timeout (mk buf bc ij (Some Future.Pending)) events
    = (Returned
         (parsed
            (json_loads ext
               (String.append buf (decoded ext (payloads_of events))))),
       mk EmptyString 0 false
          (Some (Future.Finished
                   (parsed
                      (json_loads ext
                         (String.append buf
                            (decoded ext (payloads_of events)))))))).
Proof.
  induction events as [|[|p] events IH];
    intros timeout buf bc ij Hopen Hclose Hload Ht.
  - cbn [payloads_of decoded fold_right closes_at_end] in Hclose. congruence.
  - cbn [ticks_of] in Ht. destruct timeout as [|timeout]; [lia|].
    cbn [wait_for response_future payloads_of].
    apply IH; [assumption | assumption | assumption | lia].
  - cbn [ticks_of] in Ht. destruct timeout as [|timeout]; [lia|].
    cbn [payloads_of decoded fold_right] in *.
    fold (decoded ext (payloads_of events)) in *.
    pose proof (closes_at_end_app _ _ _ _ Hclose) as Hrest.
    cbn [wait_for response_future]. unfold handle.
    cbn [buffer brace_count in_json].
    destruct (count_braces (bytes_decode_replace ext p) bc ij) as [bc' ij'].
    cbn [fst snd] in Hrest.
    destruct (ij' && (bc' =? 0)) eqn:Hdone.
    + pose proof (closes_at_end_closed _ _ _ Hrest Hdone) as Hnil.
      rewrite Hnil, append_nil_r in Hload |- *.
      apply andb_true_iff in Hdone as [_ Hz]. apply Z.eqb_eq in Hz. subst bc'.
      destruct (json_loads ext _); [| |contradiction];
        cbn [response_future Future.done negb Future.set_result fst parsed];
        destruct events; reflexivity.
    + cbn [response_future fst].
      rewrite <- append_assoc in Hload.
      rewrite (IH (S timeout) _ bc' ij' Hdone Hrest Hload Ht).
      now rewrite append_assoc.
Qed.

End Waiting.

(** X13: a wait started on an idle handler returns the response when
    the payloads that arrive before fewer than [timeout] ticks have passed
    join to a text whose braces close the object at its end and on which
    [json.loads] returns or raises [json.JSONDecodeError], however ticks
    and payloads alternate: the value parsed, or [None] after the decode
    error.  The handler is idle again and the future holds the value
    returned. *)
Theorem wait_response_delivers (ext : Externals) (timeout : nat) (self : t)
  (events : list event) (text : string) :
  buffer self = EmptyString -> brace_count self = 0 -> in_json self = false ->
  decoded ext (payloads_of events) = text ->
  well_nested text = true ->
  json_loads ext text <> Other_error ->
  (ticks_of events < timeout)%nat ->
  wait_response ext timeout self events
  = (Returned (parsed (json_loads ext text)),
     mk EmptyString 0 false
        (Some (Future.Finished (parsed (json_loads ext text))))).
Proof.
  intros Hb Hc Hj Htext Hnest Hload Ht. unfold wait_response.
  rewrite Hb, Hc, Hj, <- Htext.
  rewrite (wait_for_delivers ext events timeout EmptyString 0 false);
    try assumption; [reflexivity | reflexivity | now rewrite Htext
                    | now rewrite Htext].
Qed.

Lemma wait_response_delivers_witness :
  wait_response Sample.externals 4 init
    [Tick; Deliver [123; 34; 97; 34]; Tick; Deliver [58; 32; 49; 125]; Tick]
  = (Returned (Some Sample.value_flat),
     mk EmptyString 0 false
        (Some (Future.Finished (Some Sample.value_flat)))).
Proof.
  apply (wait_response_delivers Sample.externals 4 init
           [Tick; Deliver [123; 34; 97; 34]; Tick;
            Deliver [58; 32; 49; 125]; Tick]
           (Sample.latin1 Sample.text_flat));
    try reflexivity.
  - discriminate.
  - cbn. lia.
Defined.

(** X14: a wait that sees [timeout] ticks and no payload returns [None]
    and leaves its future cancelled; whatever arrives afterwards, while no
    new wait is started, makes no [set_result] call and leaves the future
    cancelled. *)
Theorem late_response_dropped (ext : Externals) (timeout n : nat) (self : t) :
  (timeout <= n)%nat ->
  exists self1,
    wait_response ext timeout self (repeat Tick n) = (Returned None, self1)
    /\ response_future self1 = Some Future.Cancelled
    /\ forall payloads self2 results endings,
         handle_all ext self1 payloads = (self2, results, endings) ->
         results = [] /\ response_future self2 = Some Future.Cancelled.
Proof.
  intros Hn. eexists. split; [|split].
  - now apply CorrelatorFacts.wait_response_times_out.
  - reflexivity.
  - intros payloads self2 results endings H.
    apply CorrelatorFacts.handle_all_settled in H; [exact H|].
    discriminate.
Qed.

Lemma late_response_dropped_witness :
  exists self1,
    wait_response Sample.externals 2 init (repeat Tick 3)
    = (Returned None, self1)
    /\ response_future self1 = Some Future.Cancelled
    /\ forall payloads self2 results endings,
         handle_all Sample.externals self1 payloads
         = (self2, results, endings) ->
         results = [] /\ response_future self2 = Some Future.Cancelled.
Proof.
  apply (late_response_dropped Sample.externals 2 3 init). lia.
Defined.

End ReassemblyFacts.

Module VerifyMore.
Import SettingsHandler VerifyAux VerifyFacts.

Lemma set_absent (key : string) (value : json) (d : dict) :
  ~ In key (PyDict.keys d) -> PyDict.set key value d = d ++ [(key, value)].
Proof.
  induction d as [|[k v] d IH]; intros Hnot; cbn [PyDict.set app].
  - reflexivity.
  - destruct (String.eqb k key) eqn:E.
    + apply String.eqb_eq in E. subst k. exfalso. apply Hnot. now left.
    + rewrite IH; [reflexivity|]. intros Hin. apply Hnot. now right.
Qed.

Lemma update_disjoint (other : dict) :
  forall d,
    NoDup (PyDict.keys other) ->
    (forall key, In key (PyDict.keys d) -> ~ In key (PyDict.keys other)) ->
    DictAux.update d other = d ++ other.
Proof.
  unfold DictAux.update.
  induction other as [|[k v] other IH]; intros d Hnodup Hdis;
    cbn [fold_left fst snd].
  - now rewrite app_nil_r.
  - inversion Hnodup as [|? ? Hk Hrest]; subst.
    rewrite set_absent.
    + rewrite IH; [now rewrite <- app_assoc | exact Hrest |].
      intros key Hin. unfold PyDict.keys in Hin.
      rewrite map_app in Hin. apply in_app_or in Hin as [Hin|[<-|[]]].
      * intros Hin'. apply (Hdis key Hin). now right.
      * exact Hk.
    + intros Hin. apply (Hdis k Hin). now left.
Qed.

(** X22: verifying the union of two mappings that share no key
    ([expected1.update(expected2)]) in one call is verifying each of
    them: the answer is the conjunction of the two answers. *)
Theorem verify_app (expected1 expected2 : dict) (received : option dict) :
  NoDup (PyDict.keys expected2) ->
  (forall key,
      In key (PyDict.keys expected1) -> ~ In key (PyDict.keys expected2)) ->
  verify (DictAux.update expected1 expected2) received
  = verify expected1 received && verify expected2 received.
Proof.
  intros Hnodup Hdis. rewrite (update_disjoint _ _ Hnodup Hdis).
  unfold verify, verify_logged.
  destruct (PyValue.truthy_dict received) eqn:E; cbn [negb fst];
    [|reflexivity].
  destruct received as [received|]; [|reflexivity].
  rewrite !verify_loop_result. cbn [andb]. apply forallb_app.
Qed.

Lemma verify_app_witness :
  verify
    (DictAux.update [("app/brightness"%string, JInt 25)]
       [("settings/lock"%string, JBool true)])
    (Some [("settings/lock"%string, JBool true);
           ("app/brightness"%string, JInt 30)])
  = verify [("app/brightness"%string, JInt 25)]
      (Some [("settings/lock"%string, JBool true);
             ("app/brightness"%string, JInt 30)])
    && verify [("settings/lock"%string, JBool true)]
         (Some [("settings/lock"%string, JBool true);
                ("app/brightness"%string, JInt 30)]).
Proof.
  apply (verify_app [("app/brightness"%string, JInt 25)]
           [("settings/lock"%string, JBool true)]
           (Some [("settings/lock"%string, JBool true);
                  ("app/brightness"%string, JInt 30)])).
  - repeat constructor. intros [].
  - intros key [<-|[]] [H|[]]. discriminate H.
Defined.

(** X23: [verify] compares with Python's [!=], for which [True] is [1] and
    [False] is [0]: a flag expected as a boolean verifies against a
    read-back that holds it as that number. *)
Theorem verify_bool_as_int (key : string) (b : bool) (received : dict) :
  is_excluded key = false ->
  PyDict.get key received = Some (JInt (if b then 1 else 0)) ->
  verify [(key, JBool b)] (Some received) = true.
Proof.
  intros Hex Hget.
  destruct received as [|item received]; [discriminate Hget|].
  unfold verify, verify_logged.
  cbn [PyValue.truthy_dict PyValue.truthy negb verify_loop].
  rewrite Hex, Hget. destruct b; reflexivity.
Qed.

Lemma verify_bool_as_int_witness :
  verify [("settings/lock"%string, JBool true)]
    (Some [("app/brightness"%string, JInt 25);
           ("settings/lock"%string, JInt 1)]) = true.
Proof.
  apply (verify_bool_as_int "settings/lock" true
           [("app/brightness"%string, JInt 25);
            ("settings/lock"%string, JInt 1)]);
    reflexivity.
Defined.

End VerifyMore.

Module FWInfoFacts.
Import FWInfoReader ReassemblyAux.

Section WithExternals.
Context (ext : Externals).

Lemma handler_ignores (self : t) (payload : bytes) :
  serial_of ext (Deliver payload) = None -> handler ext self payload = self.
Proof.
  cbn [serial_of]. unfold handler.
  destruct (pb_FromString ext payload) as [[serial|]|];
    [discriminate | reflexivity | reflexivity].
Qed.

(** X15: [wait_serial] on a new reader returns the serial number of the
    first payload that parses to a message with device info, whatever
    comes after it; ticks, payloads that do not parse and messages without
    device info before it leave the wait suspended. *)
Theorem wait_serial_first (before after : list event) (payload : bytes)
  (serial : string) :
  Forall (fun e => serial_of ext e = None) before ->
  pb_FromString ext payload = Some (Some serial) ->
  wait_serial ext init (before ++ Deliver payload :: after)
  = (Returned serial, mk (Future.Finished serial))
  /\ wait_serial ext init before = (Suspended, init).
Proof.
  intros Hb Hp. induction Hb as [|e before He _ IH].
  - split; [|reflexivity].
    cbn [app wait_serial init _serial_future].
    rewrite (CorrelatorFacts.handler_resolves ext payload serial Hp).
    destruct after; reflexivity.
  - destruct e as [|p]; cbn [app wait_serial init _serial_future].
    + exact IH.
    + fold init. rewrite (handler_ignores init p He). exact IH.
Qed.

End WithExternals.

Lemma wait_serial_first_witness :
  wait_serial Sample.externals init
    ([Tick; Deliver []; Deliver [0; 9]; Tick]
     ++ Deliver [1; 65; 66] :: [Deliver [1; 67]])
  = (Returned "AB"%string, mk (Future.Finished "AB"%string))
  /\ wait_serial Sample.externals init [Tick; Deliver []; Deliver [0; 9]; Tick]
     = (Suspended, init).
Proof.
  apply (wait_serial_first Sample.externals
           [Tick; Deliver []; Deliver [0; 9]; Tick] [Deliver [1; 67]]
           [1; 65; 66] "AB"%string).
  - repeat constructor.
  - reflexivity.
Defined.

End FWInfoFacts.

Module AuthorizerMore.
Import DTSettingsAuthorizer.

Lemma set_set (key : string) (v1 v2 : json) (d : dict) :
  PyDict.set key v2 (PyDict.set key v1 d) = PyDict.set key v2 d.
Proof.
  induction d as [|[k v] d IH]; cbn [PyDict.set].
  - now rewrite String.eqb_refl.
  - destruct (String.eqb k key) eqn:E; cbn [PyDict.set]; rewrite E.
    + reflexivity.
    + now rewrite IH.
Qed.

Lemma get_set_same (key : string) (value : json) (d : dict) :
  PyDict.get key (PyDict.set key value d) = Some value.
Proof.
  induction d as [|[k v] d IH]; cbn [PyDict.set PyDict.get].
  - now rewrite String.eqb_refl.
  - destruct (String.eqb k key) eqn:E; cbn [PyDict.get]; rewrite E.
    + reflexivity.
    + exact IH.
Qed.

Lemma get_set_other (key other : string) (value : json) (d : dict) :
  other <> key ->
  PyDict.get other (PyDict.set key value d) = PyDict.get other d.
Proof.
  intros Hne.
  induction d as [|[k v] d IH]; cbn [PyDict.set PyDict.get].
  - destruct (String.eqb key other) eqn:E; [|reflexivity].
    apply String.eqb_eq in E. congruence.
  - destruct (String.eqb k key) eqn:E; cbn [PyDict.get].
    + apply String.eqb_eq in E. subst k.
      destruct (String.eqb key other) eqn:E'; [|reflexivity].
      apply String.eqb_eq in E'. congruence.
    + now rewrite IH.
Qed.

(** X16: with a key that AES takes, what [sign_settings] signs is the
    caller's settings with the [serial] argument under [sn]: [cnt] is the
    base64 of the serialization of that mapping and [sig] the base64 of
    the CCM tag of [cnt]; in that mapping [sn] is the serial and every
    other key has the caller's value.  An [sn] entry that the caller's
    settings already hold is overwritten before serialization, so it has
    no effect on the envelope.  The envelope has the two keys [cnt] and
    [sig] and no other; the control keys of the settings travel inside
    [cnt]. *)
Theorem sign_settings_binds_serial (ext : Externals) (self : t)
  (settings : dict) (sn : json) (serial : string) (rnd : entropy) :
  valid_key (key self) = true ->
  let signed := PyDict.set "sn" (JStr serial) settings in
  let content := b64encode ext (str_encode ext (json_dumps ext (JObj signed))) in
  sign_settings ext self settings serial rnd
  = Some ([("cnt"%string, JStr (bytes_decode ext content));
           ("sig"%string,
            JStr (bytes_decode ext
                    (b64encode ext
                       (ccm_tag ext (key self) (repeat 0 13) content))))],
          rnd)
  /\ PyDict.get "sn" signed = Some (JStr serial)
  /\ (forall other, other <> "sn"%string ->
        PyDict.get other signed = PyDict.get other settings)
  /\ sign_settings ext self (PyDict.set "sn" sn settings) serial rnd
     = sign_settings ext self settings serial rnd.
Proof.
  intros Hkey signed content. repeat split.
  - now apply AuthorizerFacts.sign_settings_valid.
  - apply get_set_same.
  - intros other Hne. now apply get_set_other.
  - rewrite !(AuthorizerFacts.sign_settings_valid _ _ _ _ _ Hkey).
    now rewrite set_set.
Qed.

Lemma sign_settings_binds_serial_witness :
  let self := mk (AUTH_KEY Sample.config) in
  let settings := [("sn"%string, JStr "OTHER"); ("save"%string, JBool true)] in
  let signed := PyDict.set "sn" (JStr "ABC123") settings in
  let content :=
    b64encode Sample.externals
      (str_encode Sample.externals
         (json_dumps Sample.externals (JObj signed))) in
  sign_settings Sample.externals self settings "ABC123" []
  = Some ([("cnt"%string, JStr (bytes_decode Sample.externals content));
           ("sig"%string,
            JStr (bytes_decode Sample.externals
                    (b64encode Sample.externals
                       (ccm_tag Sample.externals (key self) (repeat 0 13)
                          content))))],
          [])
  /\ PyDict.get "sn" signed = Some (JStr "ABC123")
  /\ (forall other, other <> "sn"%string ->
        PyDict.get other signed = PyDict.get other settings)
  /\ sign_settings Sample.externals self
       (PyDict.set "sn" (JInt 7) settings) "ABC123" []
     = sign_settings Sample.externals self settings "ABC123" [].
Proof.
  apply (sign_settings_binds_serial Sample.externals
           (mk (AUTH_KEY Sample.config))
           [("sn"%string, JStr "OTHER"); ("save"%string, JBool true)]
           (JInt 7) "ABC123"%string []).
  reflexivity.
Defined.

End AuthorizerMore.

Module EmptyFrames.
Import PyBytes Slip SlipAux SlipFacts.

Lemma no_pair_in_ENDs (b : byte) (n : nat) :
  has_adjacent ESC b (repeat END n) = false.
Proof.
  induction n as [|n IH]; [reflexivity|].
  cbn [repeat has_adjacent]. destruct n; [reflexivity|].
  cbn [repeat] in *. exact IH.
Qed.

Lemma decode_ENDs (n : nat) : decode (repeat END n) = [].
Proof.
  unfold decode, ESC_b, ESC_END_b, ESC_ESC_b, END_b. cbn [app].
  rewrite (replace_pair_absent ESC ESC_ESC [ESC] (repeat END n))
    by apply no_pair_in_ENDs.
  rewrite replace_pair_absent by apply no_pair_in_ENDs.
  unfold strip. rewrite lstrip_all; [reflexivity|].
  induction n; [reflexivity | exact IHn].
Qed.

(** X11: a frame that holds nothing but [END] bytes (the terminator alone,
    or terminators sent back to back) decodes to no data and is dropped:
    no address is read from it and no handler is called. *)
Theorem empty_frame_dropped (handler : Type)
  (m : @SlipDispatcher.handler_map handler) (n : nat) :
  SlipSerialReader.process_packet (repeat END n) = None
  /\ SlipDispatcher.process_packet_calls m (repeat END n) = [].
Proof.
  unfold SlipDispatcher.process_packet_calls, SlipSerialReader.process_packet.
  now rewrite decode_ENDs.
Qed.

End EmptyFrames.
Module MainMore.
Import Main MainFacts TraceAux Scenarios.

Ltac run_binds :=
  repeat (rewrite bind_run; cbv beta;
          cbn [dispatcher_start emit read_settings ret fst snd dev trace rnd
               settings_replies serial_reply start_replies app negb]).

Section WithEnvironment.
Context (ext : Externals) (cfg : Config).

Lemma upload_settings_run (payload : dict) (verify_dict : option dict)
  (w : world) :
  fst (upload_settings ext cfg payload verify_dict w)
  = upload_ok verify_dict (reply_value (next_reply w))
  /\ trace (snd (upload_settings ext cfg payload verify_dict w))
     = trace w
       ++ upload_actions ext cfg payload
       ++ upload_log verify_dict (next_reply w)
  /\ settings_replies (dev (snd (upload_settings ext cfg payload verify_dict w)))
     = tl (settings_replies (dev w))
  /\ serial_reply (dev (snd (upload_settings ext cfg payload verify_dict w)))
     = serial_reply (dev w)
  /\ start_replies (dev (snd (upload_settings ext cfg payload verify_dict w)))
     = start_replies (dev w)
  /\ rnd (snd (upload_settings ext cfg payload verify_dict w)) = rnd w.
Proof.
  unfold upload_settings, upload_ok, upload_log, verify_log, upload_actions,
    upload_frame, read_frame, next_reply.
  rewrite !bind_run; cbv beta.
  cbn [emit read_settings fst snd dev trace rnd].
  match goal with
  | |- context [wait_response ?w1] =>
      destruct (wait_response_run w1) as (d & Hw & Hr & Hs & Hst); rewrite Hw
  end.
  cbn [fst snd dev trace rnd] in *.
  set (r := hd Timeout (settings_replies (dev w))) in *.
  destruct (PyValue.truthy_dict (reply_value r)); cbn [negb andb].
  - destruct (PyValue.truthy_dict verify_dict).
    + destruct verify_dict as [vd|].
      * rewrite !bind_run, emit_all_run.
        destruct (SettingsHandler.verify vd (reply_value r));
          rewrite ?bind_run;
          cbn [emit ret fst snd trace dev rnd];
          rewrite <- !app_assoc; cbn [app]; repeat split; assumption.
      * cbn [ret fst snd trace dev rnd].
        rewrite <- !app_assoc, ?app_nil_r; cbn [app]; repeat split;
          assumption.
    + cbn [ret fst snd trace dev rnd].
      rewrite <- !app_assoc, ?app_nil_r; cbn [app]; repeat split; assumption.
  - rewrite ?bind_run. cbn [emit ret fst snd trace dev rnd].
    rewrite <- !app_assoc; cbn [app]; repeat split; assumption.
Qed.

Lemma verify_truthy (expected : dict) (received : option dict) :
  SettingsHandler.verify expected received = true ->
  PyValue.truthy_dict received = true.
Proof.
  unfold SettingsHandler.verify, SettingsHandler.verify_logged.
  destruct (PyValue.truthy_dict received); [reflexivity | discriminate].
Qed.

Lemma upload_ok_verify (vd : dict) (received : option dict) :
  vd <> [] ->
  upload_ok (Some vd) received = SettingsHandler.verify vd received.
Proof.
  intros Hne. destruct vd as [|item vd]; [contradiction|].
  unfold upload_ok. cbn [PyValue.truthy_dict PyValue.truthy].
  destruct (PyValue.truthy_dict received) eqn:E; [reflexivity|].
  unfold SettingsHandler.verify, SettingsHandler.verify_logged.
  now rewrite E.
Qed.

(** A reply that verifies is not a timeout: [wait_response] has logged
    nothing, [verify] its lines, [upload_settings] its line. *)
Lemma upload_log_verified (vd : dict) (r : reply) :
  vd <> [] -> SettingsHandler.verify vd (reply_value r) = true ->
  upload_log (Some vd) r
  = verify_log vd (reply_value r) ++ [Log_info "Verification OK"].
Proof.
  intros Hne Hv. destruct vd as [|item vd]; [contradiction|].
  unfold upload_log. rewrite (verify_truthy _ _ Hv), Hv.
  destruct r as [|value]; [discriminate Hv | reflexivity].
Qed.

Lemma is_log_verify_log (vd : dict) (received : option dict) :
  forallb is_log (verify_log vd received) = true.
Proof.
  unfold verify_log.
  induction (snd (SettingsHandler.verify_logged vd received)) as [|l ls IH];
    [reflexivity | exact IH].
Qed.

Lemma is_log_upload_log (verify_dict : option dict) (r : reply) :
  forallb is_log (upload_log verify_dict r) = true.
Proof.
  unfold upload_log. rewrite forallb_app. apply andb_true_iff. split.
  - destruct r; reflexivity.
  - destruct (PyValue.truthy_dict (reply_value r)); cbn [negb];
      [|reflexivity].
    destruct (PyValue.truthy_dict verify_dict); [|reflexivity].
    destruct verify_dict as [vd|]; [|reflexivity].
    rewrite forallb_app, is_log_verify_log.
    destruct (SettingsHandler.verify vd (reply_value r)); reflexivity.
Qed.

(** X17: [upload_settings] writes the settings frame and, after the
    pause, one read request, and takes one reply.  It answers [True]
    exactly when the value of that reply is a mapping that is not empty
    and, if a verify mapping that is not empty was given, [verify] accepts
    it.  After the read request it writes nothing: what follows in the
    trace are log lines only, namely the timeout warning of
    [wait_response] if the wait timed out, the lines of [verify] if
    [verify] was called, and the line in which [upload_settings] reports
    the outcome. *)
Theorem upload_settings_answer (payload : dict) (verify_dict : option dict)
  (w : world) :
  fst (upload_settings ext cfg payload verify_dict w)
  = upload_ok verify_dict (reply_value (next_reply w))
  /\ trace (snd (upload_settings ext cfg payload verify_dict w))
     = trace w
       ++ [Transport_write By_upload_settings (upload_frame ext cfg payload);
           Sleep 200;
           Transport_write By_read_settings (read_frame ext cfg)]
       ++ upload_log verify_dict (next_reply w)
  /\ forallb is_log (upload_log verify_dict (next_reply w)) = true
  /\ settings_replies
       (dev (snd (upload_settings ext cfg payload verify_dict w)))
     = tl (settings_replies (dev w)).
Proof.
  destruct (upload_settings_run payload verify_dict w)
    as (H1 & H2 & H3 & _).
  split; [exact H1|]. split; [exact H2|]. split; [|exact H3].
  apply is_log_upload_log.
Qed.

(** X18: when the first read brings nothing (the timeout, an answer that
    did not parse, or an empty mapping), [main] logs it, closes the
    transport and returns: it has written the one read request and
    nothing else. *)
Theorem initial_read_failure_stops (first : reply)
  (replies : list reply) (serial : option string)
  (starts : list bool) (r : DTSettingsAuthorizer.entropy) :
  PyValue.truthy_dict (reply_value first) = false ->
  run ext cfg (mk_device (first :: replies) serial (true :: starts)) r
  = (Finished,
     opening ext cfg
     ++ reply_log first
     ++ [Log_error "No JSON received on initial read"; Transport_close]).
Proof.
  intros Hfirst. unfold run, main. run_binds.
  cbn [wait_response dev settings_replies fst snd trace]. rewrite Hfirst.
  cbn [negb]. run_binds. unfold opening, read_frame.
  rewrite <- !app_assoc. reflexivity.
Qed.

Lemma unlocked_start (first : dict) (replies : list reply)
  (serial : option string) (starts : list bool)
  (r : DTSettingsAuthorizer.entropy) :
  first <> [] ->
  PyValue.truthy
    (match PyDict.get "settings/lock" first with
     | Some v => v
     | None => JBool false
     end) = false ->
  main ext cfg
    (mk_world
       (mk_device (Resolved (Some first) :: replies) serial (true :: starts))
       [] r)
  = let w1 :=
      mk_world (mk_device replies serial starts)
        (opening ext cfg
         ++ [Log_info
               "Device is unlocked, running init setup to lock the device."])
        r in
    let u1 := upload_settings ext cfg (setup_access_settings ext cfg)
                (Some (setup_access_settings ext cfg)) w1 in
    if negb (fst u1) then
      (Finished,
       mk_world (dev (snd u1))
         (trace (snd u1)
          ++ [Log_error "Failed to prepare ACL/key on unlocked device";
              Transport_close])
         (rnd (snd u1)))
    else
      let u2 := upload_settings ext cfg lock_settings (Some lock_settings)
                  (snd u1) in
      if negb (fst u2) then
        (Finished,
         mk_world (dev (snd u2))
           (trace (snd u2)
            ++ [Log_error "Failed to lock device"; Transport_close])
           (rnd (snd u2)))
      else
        signed_settings_flow ext cfg
          (mk_world (dev (snd u2))
             (trace (snd u2) ++ [Log_info "Device successfully locked"])
             (rnd (snd u2))).
Proof.
  intros Hne Hlock. unfold main. run_binds.
  cbn [wait_response dev settings_replies fst snd trace reply_value
       reply_log].
  destruct first as [|item first]; [contradiction|].
  cbn [PyValue.truthy_dict PyValue.truthy negb].
  rewrite Hlock. cbn [negb]. run_binds. cbv zeta.
  cbn [trace rnd serial_reply start_replies].
  destruct (fst (upload_settings ext cfg (setup_access_settings ext cfg) _ _));
    cbn [negb]; run_binds; [|now rewrite <- !app_assoc].
  destruct (fst (upload_settings ext cfg lock_settings _ _)); cbn [negb];
    run_binds; [reflexivity | now rewrite <- !app_assoc].
Qed.

Lemma setup_nonempty : setup_access_settings ext cfg <> [].
Proof. unfold setup_access_settings. discriminate. Qed.

Lemma lock_nonempty : lock_settings <> [].
Proof. unfold lock_settings. discriminate. Qed.

(** X19: on an unlocked device whose read-back after the access set-up
    does not verify, [main] logs the failure, closes the transport and
    returns.  It has written the set-up and the read-back request; it
    writes no lock, no serial request, no signed settings and no
    restart. *)
Theorem setup_failure_stops (first : dict) (setup_readback : reply)
  (replies : list reply) (serial : option string)
  (starts : list bool) (r : DTSettingsAuthorizer.entropy) :
  first <> [] ->
  PyValue.truthy
    (match PyDict.get "settings/lock" first with
     | Some v => v
     | None => JBool false
     end) = false ->
  SettingsHandler.verify (setup_access_settings ext cfg)
    (reply_value setup_readback) = false ->
  run ext cfg
    (mk_device (Resolved (Some first) :: setup_readback :: replies) serial
       (true :: starts)) r
  = (Finished,
     opening ext cfg
     ++ [Log_info "Device is unlocked, running init setup to lock the device."]
     ++ upload_actions ext cfg (setup_access_settings ext cfg)
     ++ upload_log (Some (setup_access_settings ext cfg)) setup_readback
     ++ [Log_error "Failed to prepare ACL/key on unlocked device";
         Transport_close]).
Proof.
  intros Hne Hlock Hsetup. unfold run.
  rewrite (unlocked_start first _ serial starts r Hne Hlock). cbv zeta.
  match goal with
  | |- context [upload_settings ext cfg ?p ?v ?w] =>
      destruct (upload_settings_run p v w) as (H1 & H2 & _)
  end.
  rewrite H1. unfold next_reply in *. cbn [dev settings_replies hd] in *.
  rewrite upload_ok_verify by apply setup_nonempty.
  rewrite Hsetup. cbn [negb trace].
  rewrite H2. cbn [trace]. now rewrite <- !app_assoc.
Qed.

(** X20: on an unlocked device that takes the access set-up but whose
    read-back after the lock does not verify, [main] logs the failure,
    closes the transport and returns: no serial request, no signed
    settings, no restart. *)
Theorem lock_failure_stops (first : dict)
  (setup_readback lock_readback : reply)
  (replies : list reply) (serial : option string)
  (starts : list bool) (r : DTSettingsAuthorizer.entropy) :
  first <> [] ->
  PyValue.truthy
    (match PyDict.get "settings/lock" first with
     | Some v => v
     | None => JBool false
     end) = false ->
  SettingsHandler.verify (setup_access_settings ext cfg)
    (reply_value setup_readback) = true ->
  SettingsHandler.verify lock_settings (reply_value lock_readback) = false ->
  run ext cfg
    (mk_device
       (Resolved (Some first) :: setup_readback :: lock_readback :: replies)
       serial (true :: starts)) r
  = (Finished,
     opening ext cfg
     ++ [Log_info "Device is unlocked, running init setup to lock the device."]
     ++ upload_actions ext cfg (setup_access_settings ext cfg)
     ++ verify_log (setup_access_settings ext cfg)
          (reply_value setup_readback)
     ++ [Log_info "Verification OK"]
     ++ upload_actions ext cfg lock_settings
     ++ upload_log (Some lock_settings) lock_readback
     ++ [Log_error "Failed to lock device"; Transport_close]).
Proof.
  intros Hne Hlock Hsetup Hl. unfold run.
  rewrite (unlocked_start first _ serial starts r Hne Hlock). cbv zeta.
  match goal with
  | |- context [upload_settings ext cfg (setup_access_settings ext cfg) ?v ?w] =>
      destruct (upload_settings_run (setup_access_settings ext cfg) v w)
        as (H1 & H2 & H3 & _);
      set (u1 := upload_settings ext cfg (setup_access_settings ext cfg) v w)
        in *
  end.
  rewrite H1. unfold next_reply in *. cbn [dev settings_replies hd tl] in *.
  rewrite upload_ok_verify by apply setup_nonempty.
  rewrite Hsetup. cbn [negb].
  destruct (upload_settings_run lock_settings (Some lock_settings) (snd u1))
    as (K1 & K2 & _).
  unfold next_reply in *.
  rewrite K1, H3. cbn [hd].
  rewrite upload_ok_verify by apply lock_nonempty.
  rewrite Hl. cbn [negb trace].
  rewrite K2, H2, H3. cbn [hd trace].
  rewrite (upload_log_verified _ _ setup_nonempty Hsetup).
  now rewrite <- !app_assoc.
Qed.

Lemma reconnect_bounded_aux (n : nat) (w : world) :
  exists added,
    trace (snd (reconnect ext cfg n w)) = trace w ++ added
    /\ (List.length (filter is_start added) <= n)%nat
    /\ (fst (reconnect ext cfg n w) = false ->
        List.length (filter is_start added) = n)
    /\ forallb reconnect_action added = true.
Proof.
  revert w. induction n as [|n IH]; intros w.
  - exists []. cbn. rewrite app_nil_r. repeat split; lia.
  - cbn [reconnect]. rewrite !bind_run; cbv beta.
    cbn [emit fst snd].
    set (w1 := mk_world (dev w) (trace w ++ [Sleep 1000]) (rnd w)).
    assert (exists ok d,
               dispatcher_start w1
               = (ok, mk_world d (trace w ++ [Sleep 1000; Connect]) (rnd w)))
      as (ok & d & Hstart).
    { unfold dispatcher_start, w1. cbn [dev trace rnd].
      rewrite <- app_assoc. cbn [app].
      destruct (start_replies (dev w)) as [|ok starts]; eexists _, _;
        reflexivity. }
    rewrite Hstart. cbn [fst snd]. destruct ok.
    + rewrite !bind_run; cbv beta.
      cbn [emit read_settings fst snd dev trace rnd].
      match goal with
      | |- context [wait_response ?w2] =>
          destruct (wait_response_run w2) as (d' & Hw & _); rewrite Hw
      end.
      cbn [fst snd dev trace rnd].
      set (rp := hd Timeout (settings_replies d)).
      assert (forallb reconnect_action (reply_log rp) = true) as Hlog
        by (destruct rp; reflexivity).
      assert (filter is_start (reply_log rp) = []) as Hnone
        by (destruct rp; reflexivity).
      destruct (PyValue.truthy_dict (reply_value rp)).
      * rewrite !bind_run. cbn [emit ret fst snd trace].
        eexists. split; [rewrite <- !app_assoc; cbn [app]; reflexivity|].
        cbn [filter is_start forallb reconnect_action andb].
        rewrite filter_app, forallb_app, Hnone, Hlog.
        cbn. repeat split; try discriminate; lia.
      * match goal with
        | |- context [reconnect ext cfg n ?w'] =>
            destruct (IH w') as (a & Ha & Hle & Hf & Hk)
        end.
        rewrite Ha. cbn [trace].
        eexists. split; [rewrite <- !app_assoc; cbn [app]; reflexivity|].
        cbn [filter is_start forallb reconnect_action andb].
        rewrite filter_app, forallb_app, Hnone, Hlog, Hk.
        cbn [app List.length andb]. repeat split; try lia.
        intros Hfalse. specialize (Hf Hfalse). lia.
    + rewrite !bind_run; cbv beta. cbn [emit fst snd dev trace rnd].
      match goal with
      | |- context [reconnect ext cfg n ?w'] =>
          destruct (IH w') as (a & Ha & Hle & Hf & Hk)
      end.
      rewrite Ha. cbn [trace].
      eexists. split; [rewrite <- !app_assoc; cbn [app]; reflexivity|].
      cbn [filter is_start forallb reconnect_action andb List.length].
      repeat split; try assumption; try lia.
      intros Hfalse. specialize (Hf Hfalse). lia.
Qed.

(** X21: the reconnect loop makes at most as many connection attempts as
    it is given, all of them when it answers [False]; between them it only
    pauses, asks for the settings and logs: it writes no settings and no
    restart, and does not close the transport. *)
Theorem reconnect_bounded (n : nat) (w : world) :
  exists added,
    trace (snd (reconnect ext cfg n w)) = trace w ++ added
    /\ (List.length (filter is_start added) <= n)%nat
    /\ (fst (reconnect ext cfg n w) = false ->
        List.length (filter is_start added) = n)
    /\ forallb reconnect_action added = true.
Proof. apply reconnect_bounded_aux. Qed.

(** X26: with a key that AES takes, once the serial number has arrived
    the signed-settings flow runs to its end.  It logs and writes the
    serial request, signs, uploads the envelope and asks for the
    read-back, writes the restart frame once whatever the reply to the
    read-back request was (a mapping, an answer that did not parse, or
    the timeout), closes the transport, tries to reconnect at most 10
    times, closes the transport again and returns. *)
Theorem signed_flow_shape (w : world) (serial : string) :
  DTSettingsAuthorizer.valid_key (AUTH_KEY cfg) = true ->
  serial_reply (dev w) = Some serial ->
  exists signed added,
    DTSettingsAuthorizer.sign_settings ext
      (DTSettingsAuthorizer.mk (AUTH_KEY cfg)) settings_to_send serial (rnd w)
    = Some (signed, rnd w)
    /\ fst (signed_settings_flow ext cfg w) = Finished
    /\ trace (snd (signed_settings_flow ext cfg w))
       = trace w
         ++ [Log_debug "Sending FWINFO request";
             Transport_write By_main_fwinfo
               (Slip.encode ([FWInfoReader.FWINFO_MUX_ADDR]
                             ++ FWInfoReader.build_request ext));
             Log_info "Using serial";
             Log_debug "Signing content"]
         ++ upload_actions ext cfg signed
         ++ upload_log (Some settings_to_send) (next_reply w)
         ++ [Transport_write By_restart_device (restart_frame cfg);
             Log_info
               "Restart command sent, waiting for device to come back...";
             Transport_close]
         ++ added ++ [Transport_close]
    /\ (List.length (filter is_start added) <= 10)%nat
    /\ forallb reconnect_action added = true.
Proof.
  intros Hkey Hserial.
  pose proof (AuthorizerFacts.sign_settings_valid ext
                (DTSettingsAuthorizer.mk (AUTH_KEY cfg)) settings_to_send
                serial (rnd w) Hkey) as Hsigned.
  match type of Hsigned with
  | _ = Some (?s, _) => set (signed := s) in *
  end.
  exists signed.
  assert (forall w0, rnd w0 = rnd w ->
            sign ext (AUTH_KEY cfg) settings_to_send serial w0
            = (Some signed,
               mk_world (dev w0) (trace w0 ++ [Log_debug "Signing content"])
                 (rnd w0))) as Hsign.
  { intros w0 Hr. unfold sign. rewrite bind_run.
    cbn [emit fst snd rnd dev trace]. rewrite Hr, Hsigned. reflexivity. }
  unfold signed_settings_flow. run_binds.
  cbn [wait_serial fst snd dev trace]. rewrite Hserial. run_binds.
  rewrite Hsign by reflexivity. cbn [fst snd dev trace rnd]. run_binds.
  match goal with
  | |- context [upload_settings ext cfg signed (Some settings_to_send) ?w1] =>
      destruct (upload_settings_run signed (Some settings_to_send) w1)
        as (_ & Hup & _);
      set (u := upload_settings ext cfg signed (Some settings_to_send) w1)
        in *
  end.
  unfold next_reply in *. cbn [dev trace] in Hup.
  cbn [restart_device emit fst snd trace dev rnd].
  match goal with
  | |- context [reconnect ext cfg 10 ?w3] =>
      destruct (reconnect_bounded_aux 10 w3) as (added & Hre & Hle & _ & Hk);
      set (rc := reconnect ext cfg 10 w3) in *
  end.
  cbn [trace] in Hre. rewrite Hup in Hre.
  destruct (fst rc).
  - exists added. run_binds. cbn [ret emit fst snd trace]. rewrite Hre.
    split; [exact Hsigned|]. split; [reflexivity|].
    split; [|split; assumption].
    now rewrite <- !app_assoc.
  - exists (added ++ [Log_error "Device restart timed out"]). run_binds.
    cbn [ret emit fst snd trace]. rewrite Hre.
    split; [exact Hsigned|]. split; [reflexivity|]. split; [|split].
    + now rewrite <- !app_assoc.
    + rewrite filter_app, length_app. cbn. lia.
    + rewrite forallb_app, Hk. reflexivity.
Qed.


Lemma device_eta (d : device) :
  d = mk_device (settings_replies d) (serial_reply d) (start_replies d).
Proof. destruct d; reflexivity. Qed.

(** X24: on a device that reports the lock, [main] goes straight to the
    signed-settings flow: it writes no access set-up and no lock, and
    takes no response but the first. *)
Theorem locked_device_skips_setup (locked : dict)
  (replies : list reply) (serial : option string)
  (starts : list bool) (r : DTSettingsAuthorizer.entropy) :
  PyValue.truthy
    (match PyDict.get "settings/lock" locked with
     | Some v => v
     | None => JBool false
     end) = true ->
  main ext cfg
    (mk_world
       (mk_device (Resolved (Some locked) :: replies) serial (true :: starts))
       [] r)
  = signed_settings_flow ext cfg
      (mk_world (mk_device replies serial starts)
         (opening ext cfg
          ++ [Log_info
                "Device is already locked, continuing with signed settings"])
         r).
Proof.
  intros Hlocked.
  assert (PyValue.truthy_dict (Some locked) = true) as Hne.
  { destruct locked; [discriminate Hlocked | reflexivity]. }
  unfold main. run_binds.
  cbn [wait_response dev settings_replies fst snd trace reply_value
       reply_log].
  rewrite Hne, Hlocked. cbn [negb]. run_binds. rewrite ?app_nil_r.
  reflexivity.
Qed.

(** X25: on an unlocked device whose read-backs after the access set-up
    and after the lock both verify, [main] has uploaded exactly those two
    mappings, in that order, each followed by a read request, before it
    enters the signed-settings flow; the flow meets the responses that
    follow the two read-backs. *)
Theorem unlocked_device_locks_first (first : dict)
  (setup_readback lock_readback : reply)
  (replies : list reply) (serial : option string)
  (starts : list bool) (r : DTSettingsAuthorizer.entropy) :
  first <> [] ->
  PyValue.truthy
    (match PyDict.get "settings/lock" first with
     | Some v => v
     | None => JBool false
     end) = false ->
  SettingsHandler.verify (setup_access_settings ext cfg)
    (reply_value setup_readback) = true ->
  SettingsHandler.verify lock_settings (reply_value lock_readback) = true ->
  main ext cfg
    (mk_world
       (mk_device
          (Resolved (Some first) :: setup_readback :: lock_readback :: replies)
          serial (true :: starts)) [] r)
  = signed_settings_flow ext cfg
      (mk_world (mk_device replies serial starts)
         (opening ext cfg
          ++ [Log_info
                "Device is unlocked, running init setup to lock the device."]
          ++ upload_actions ext cfg (setup_access_settings ext cfg)
          ++ verify_log (setup_access_settings ext cfg)
               (reply_value setup_readback)
          ++ [Log_info "Verification OK"]
          ++ upload_actions ext cfg lock_settings
          ++ verify_log lock_settings (reply_value lock_readback)
          ++ [Log_info "Verification OK";
              Log_info "Device successfully locked"])
         r).
Proof.
  intros Hne Hlock Hsetup Hl.
  rewrite (unlocked_start first _ serial starts r Hne Hlock). cbv zeta.
  match goal with
  | |- context [upload_settings ext cfg (setup_access_settings ext cfg) ?v ?w] =>
      destruct (upload_settings_run (setup_access_settings ext cfg) v w)
        as (H1 & H2 & H3 & H4 & H5 & H6);
      set (u1 := upload_settings ext cfg (setup_access_settings ext cfg) v w)
        in *
  end.
  rewrite H1. unfold next_reply in *.
  cbn [dev settings_replies serial_reply start_replies rnd hd tl] in *.
  rewrite upload_ok_verify by apply setup_nonempty.
  rewrite Hsetup. cbn [negb].
  destruct (upload_settings_run lock_settings (Some lock_settings) (snd u1))
    as (K1 & K2 & K3 & K4 & K5 & K6).
  set (u2 := upload_settings ext cfg lock_settings (Some lock_settings)
               (snd u1)) in *.
  unfold next_reply in *.
  rewrite K1, H3. cbn [hd].
  rewrite upload_ok_verify by apply lock_nonempty.
  rewrite Hl. cbn [negb].
  rewrite (device_eta (dev (snd u2))), K3, K4, K5, K6, H3, H4, H5, H6.
  cbn [tl]. rewrite K2, H2, H3. cbn [hd trace].
  rewrite (upload_log_verified _ _ setup_nonempty Hsetup).
  rewrite (upload_log_verified _ _ lock_nonempty Hl).
  rewrite <- ?app_assoc. reflexivity.
Qed.

End WithEnvironment.
End MainMore.

Module MainWitnesses.
Import Main TraceAux Scenarios.

Lemma initial_read_failure_stops_witness :
  run Sample.externals Sample.config
    (mk_device [Timeout; Resolved (Some [("settings/lock"%string, JBool true)])]
       (Some "ABC123"%string) [true]) []
  = (Finished,
     opening Sample.externals Sample.config
     ++ reply_log Timeout
     ++ [Log_error "No JSON received on initial read"; Transport_close]).
Proof.
  apply (MainMore.initial_read_failure_stops Sample.externals Sample.config
           Timeout [Resolved (Some [("settings/lock"%string, JBool true)])]
           (Some "ABC123"%string) [] []).
  reflexivity.
Defined.

Lemma setup_failure_stops_witness :
  run Sample.externals Sample.config
    (mk_device
       [Resolved (Some [("app/brightness"%string, JInt 10)]);
        Resolved (Some [("settings/acl_0"%string, JStr "AAAA")])]
       (Some "ABC123"%string) [true]) []
  = (Finished,
     opening Sample.externals Sample.config
     ++ [Log_info "Device is unlocked, running init setup to lock the device."]
     ++ upload_actions Sample.externals Sample.config
          (setup_access_settings Sample.externals Sample.config)
     ++ upload_log
          (Some (setup_access_settings Sample.externals Sample.config))
          (Resolved (Some [("settings/acl_0"%string, JStr "AAAA")]))
     ++ [Log_error "Failed to prepare ACL/key on unlocked device";
         Transport_close]).
Proof.
  apply (MainMore.setup_failure_stops Sample.externals Sample.config
           [("app/brightness"%string, JInt 10)]
           (Resolved (Some [("settings/acl_0"%string, JStr "AAAA")]))
           [] (Some "ABC123"%string) [] []).
  - discriminate.
  - reflexivity.
  - reflexivity.
Defined.

Lemma lock_failure_stops_witness :
  run Sample.externals Sample.config
    (mk_device
       [Resolved (Some [("app/brightness"%string, JInt 10)]);
        Resolved (Some [("settings/acl_0"%string,
                         JStr "//////////////////////////////////////////8=")]);
        Resolved (Some [("settings/lock"%string, JBool false)])]
       (Some "ABC123"%string) [true]) []
  = (Finished,
     opening Sample.externals Sample.config
     ++ [Log_info "Device is unlocked, running init setup to lock the device."]
     ++ upload_actions Sample.externals Sample.config
          (setup_access_settings Sample.externals Sample.config)
     ++ verify_log (setup_access_settings Sample.externals Sample.config)
          (Some [("settings/acl_0"%string,
                  JStr "//////////////////////////////////////////8=")])
     ++ [Log_info "Verification OK"]
     ++ upload_actions Sample.externals Sample.config lock_settings
     ++ upload_log (Some lock_settings)
          (Resolved (Some [("settings/lock"%string, JBool false)]))
     ++ [Log_error "Failed to lock device"; Transport_close]).
Proof.
  apply (MainMore.lock_failure_stops Sample.externals Sample.config
           [("app/brightness"%string, JInt 10)]
           (Resolved
              (Some [("settings/acl_0"%string,
                      JStr "//////////////////////////////////////////8=")]))
           (Resolved (Some [("settings/lock"%string, JBool false)]))
           [] (Some "ABC123"%string) [] []).
  - discriminate.
  - reflexivity.
  - reflexivity.
  - reflexivity.
Defined.

Lemma locked_device_skips_setup_witness :
  main Sample.externals Sample.config
    (mk_world
       (mk_device
          [Resolved (Some [("settings/lock"%string, JBool true)]); Timeout]
          (Some "ABC123"%string) [true; false]) [] [])
  = signed_settings_flow Sample.externals Sample.config
      (mk_world (mk_device [Timeout] (Some "ABC123"%string) [false])
         (opening Sample.externals Sample.config
          ++ [Log_info
                "Device is already locked, continuing with signed settings"])
         []).
Proof.
  apply (MainMore.locked_device_skips_setup Sample.externals Sample.config
           [("settings/lock"%string, JBool true)] [Timeout]
           (Some "ABC123"%string) [false] []).
  reflexivity.
Defined.

Lemma unlocked_device_locks_first_witness :
  main Sample.externals Sample.config
    (mk_world
       (mk_device
          [Resolved (Some [("app/brightness"%string, JInt 10)]);
           Resolved (Some [("settings/acl_0"%string,
                            JStr "//////////////////////////////////////////8=")]);
           Resolved (Some [("settings/lock"%string, JBool true)]);
           Timeout]
          None [true]) [] [])
  = signed_settings_flow Sample.externals Sample.config
      (mk_world (mk_device [Timeout] None [])
         (opening Sample.externals Sample.config
          ++ [Log_info
                "Device is unlocked, running init setup to lock the device."]
          ++ upload_actions Sample.externals Sample.config
               (setup_access_settings Sample.externals Sample.config)
          ++ verify_log
               (setup_access_settings Sample.externals Sample.config)
               (Some [("settings/acl_0"%string,
                       JStr "//////////////////////////////////////////8=")])
          ++ [Log_info "Verification OK"]
          ++ upload_actions Sample.externals Sample.config lock_settings
          ++ verify_log lock_settings
               (Some [("settings/lock"%string, JBool true)])
          ++ [Log_info "Verification OK";
              Log_info "Device successfully locked"])
         []).
Proof.
  apply (MainMore.unlocked_device_locks_first Sample.externals Sample.config
           [("app/brightness"%string, JInt 10)]
           (Resolved
              (Some [("settings/acl_0"%string,
                      JStr "//////////////////////////////////////////8=")]))
           (Resolved (Some [("settings/lock"%string, JBool true)]))
           [Timeout] None [] []).
  - discriminate.
  - reflexivity.
  - reflexivity.
  - reflexivity.
Defined.

Lemma signed_flow_shape_witness :
  exists signed added,
    DTSettingsAuthorizer.sign_settings Sample.externals
      (DTSettingsAuthorizer.mk (AUTH_KEY Sample.config)) settings_to_send
      "ABC123" []
    = Some (signed, [])
    /\ fst (signed_settings_flow Sample.externals Sample.config
              (mk_world good_device [] [])) = Finished
    /\ trace (snd (signed_settings_flow Sample.externals Sample.config
                     (mk_world good_device [] [])))
       = []
         ++ [Log_debug "Sending FWINFO request";
             Transport_write By_main_fwinfo
               (Slip.encode ([FWInfoReader.FWINFO_MUX_ADDR]
                             ++ FWInfoReader.build_request Sample.externals));
             Log_info "Using serial";
             Log_debug "Signing content"]
         ++ upload_actions Sample.externals Sample.config signed
         ++ upload_log (Some settings_to_send)
              (next_reply (mk_world good_device [] []))
         ++ [Transport_write By_restart_device (restart_frame Sample.config);
             Log_info
               "Restart command sent, waiting for device to come back...";
             Transport_close]
         ++ added ++ [Transport_close]
    /\ (List.length (filter is_start added) <= 10)%nat
    /\ forallb reconnect_action added = true.
Proof.
  apply (MainMore.signed_flow_shape Sample.externals Sample.config
           (mk_world good_device [] []) "ABC123"%string);
    reflexivity.
Defined.


End MainWitnesses.
